(** * Stretch-labelled binary sequences: the data generator and the
      training driver of [sltm/index.js]

    The script synthesises random 0/1 sequences, labels each one by
    whether it holds a stretch of at least [stretchLengthThreshold]
    equal digits, packs them into one-hot tensors, trains a recurrent
    classifier on them and prints rounded predictions for three fixed
    sequences.

    The embedding is shallow: every function of the script is a Rocq
    function of the same name.  [Math.random] is a stream of draws that
    is threaded through the generator; the counted [for] loops are the
    iterator [for_loop]; an exception is the [Err] case of [result].
    The tensor buffers, the fit loop and the predictions belong to the
    external tensor framework; the slice of it the script relies on is
    written out in [Module TF] and in the section on training. *)

From Stdlib Require Import ZArith QArith Qround String DecimalString Lia.
From stdpp Require Import base list.

Local Open Scope Z_scope.

(** ** Numbers *)

(** A Number that holds a count or an index: an integer, or [NaN]
    (what [parseInt] gives for text without digits, and what arithmetic
    on [undefined] gives). *)
Inductive num : Type :=
  | NaN
  | Int (z : Z).

(** [a < b] on Numbers: every comparison with [NaN] is false. *)
Definition num_lt (a b : num) : bool :=
  match a, b with
  | Int x, Int y => x <? y
  | _, _ => false
  end.

Definition num_mul (a b : num) : num :=
  match a, b with
  | Int x, Int y => Int (x * y)
  | _, _ => NaN
  end.

Definition num_add (a b : num) : num :=
  match a, b with
  | Int x, Int y => Int (x + y)
  | _, _ => NaN
  end.

(** A Number that holds a measurement (a loss, an accuracy, a
    prediction): a finite value, which is a rational, or [NaN]. *)
Inductive float : Type :=
  | FNaN
  | Fin (q : Q).

(** [a > b] on rationals, as a boolean. *)
Definition Qgtb (a b : Q) : bool := negb (Qle_bool a b).

(** ** Exceptions *)

Inductive error : Type :=
  | RangeError   (* invalid typed array length *)
  | TypeError.   (* assignment to constant variable *)

Inductive result (A : Type) : Type :=
  | Ok (a : A)
  | Err (e : error).
Arguments Ok {A} a.
Arguments Err {A} e.

Definition bind {A B : Type} (r : result A) (k : A -> result B) : result B :=
  match r with
  | Ok a => k a
  | Err e => Err e
  end.

Notation "'let!' x ':=' r 'in' k" := (bind r (fun x => k))
  (at level 10, x name, r at level 100, k at level 200).

(** ** Counted loops *)

(** [body i] applied for [i], [i+1], ..., [n] times in all. *)
Fixpoint iterate_from {St : Type} (n : nat) (i : Z) (body : Z -> St -> St) (s : St) : St :=
  match n with
  | O => s
  | S n' => iterate_from n' (i + 1) body (body i s)
  end.

(** How often [for (let i = 0; i < bound; ++i)] runs its body. *)
Definition trip_count (bound : num) : nat :=
  match bound with
  | Int z => Z.to_nat z
  | NaN => O
  end.

(** [for (let i = 0; i < bound; ++i) s = body i s]. *)
Definition for_loop {St : Type} (bound : num) (body : Z -> St -> St) (s : St) : St :=
  iterate_from (trip_count bound) 0 body s.

(** The same loop with its guard tested before every round, as the
    script writes it; [fuel] bounds the number of guard tests.
    [for_guarded_enough] below shows that [for_loop] is its result. *)
Fixpoint for_guarded {St : Type} (fuel : nat) (i : Z) (bound : num)
    (body : Z -> St -> St) (s : St) : option St :=
  match fuel with
  | O => None
  | S fuel' =>
      if num_lt (Int i) bound
      then for_guarded fuel' (i + 1) bound body (body i s)
      else Some s
  end.

(** ** The random source *)

(** The random source: every draw [Math.random] will ever return, and
    how many of them have been handed out. *)
Record RNG : Type := mkRNG {
  draws : nat -> Q;
  drawn : nat
}.

(** [Math.random()]: the next draw, and the source after it. *)
Definition Math_random (g : RNG) : Q * RNG :=
  (draws g (drawn g), mkRNG (draws g) (S (drawn g))).

(** ** generateSequenceAndLabel *)

Definition sequenceLength : Z := 10.
Definition stretchLengthThreshold : Z := 4.

(** The variables of [generateSequenceAndLabel], and the random source. *)
Record GenState : Type := mkGen {
  sequence : list Z;
  currentItem : Z;
  stretchLength : Z;
  label : Z;
  entropy : RNG
}.

(** One round of the generator's loop. *)
Definition genBody (_ : Z) (st : GenState) : GenState :=
  let (r, g') := Math_random (entropy st) in
  let item := if Qgtb r (1 # 2) then 1 else 0 in
  let sequence' := sequence st ++ [item] in
  let (currentItem', stretchLength') :=
    if currentItem st =? item
    then (currentItem st, stretchLength st + 1)
    else (item, 1) in
  let label' :=
    if stretchLength' >=? stretchLengthThreshold then 1 else label st in
  mkGen sequence' currentItem' stretchLength' label' g'.

Definition genInit (g : RNG) : GenState := mkGen [] (-1) 0 0 g.

Definition generateSequenceAndLabel (len : num) (g : RNG) : (list Z * Z) * RNG :=
  let st := for_loop len genBody (genInit g) in
  ((sequence st, label st), entropy st).

(** The generator's variables after its first [k] rounds. *)
Definition genAfter (k : nat) (g : RNG) : GenState :=
  iterate_from k 0 genBody (genInit g).

(** The digit the generator makes of the [n]-th draw still to come. *)
Definition drawnItem (g : RNG) (n : nat) : Z :=
  if Qgtb (draws g (drawn g + n)) (1 # 2) then 1 else 0.

Definition binary (d : Z) : Prop := d = 0 \/ d = 1.

(** A random source whose draws make the generator produce the given
    digits, and zeros after them. *)
Definition drawsOf (digits : list Z) : RNG :=
  mkRNG (fun k => if nth k digits 0 =? 1 then 3 # 4 else 1 # 4) 0.

(** ** Stretches

    What the label is meant to say, written without a scan.  A list has
    a run of [T] when it holds at least [T] copies of one digit side by
    side.  [stretches] cuts a list into its maximal runs, each with its
    digit and length, and [maxStretch] is the longest of them. *)
Definition has_run (T : Z) (s : list Z) : Prop :=
  exists (d : Z) (k : nat) (pre post : list Z),
    T <= Z.of_nat k /\ s = pre ++ replicate k d ++ post.

Fixpoint stretches (s : list Z) : list (Z * Z) :=
  match s with
  | [] => []
  | x :: s' =>
      match stretches s' with
      | (y, n) :: rest => if x =? y then (x, n + 1) :: rest else (x, 1) :: (y, n) :: rest
      | [] => [(x, 1)]
      end
  end.

Definition maxStretch (s : list Z) : Z :=
  fold_right Z.max 0 (map snd (stretches s)).

(** How many copies of [c] the list [r] starts with. *)
Fixpoint lead (c : Z) (r : list Z) : nat :=
  match r with
  | x :: r' => if x =? c then S (lead c r') else O
  | [] => O
  end.

(** The length of the run the list [r] starts with. *)
Definition headRun (r : list Z) : Z :=
  match r with
  | [] => 0
  | x :: r' => Z.of_nat (S (lead x r'))
  end.

(** ** The tensor framework's buffers

    [tf.buffer], [TensorBuffer.set] and [toTensor] belong to the tensor
    framework, an external library that is not among the sources.  The
    script uses them as a dense row-major array: a zero-filled typed
    array of [sizeFromShape shape] cells, a write at the cell
    [locToIndex] names, and a tensor with the same shape and cells.  A
    typed array of negative length cannot be built (a [RangeError]); a
    write outside the array, or at a [NaN] index, is dropped.  The
    cells only ever hold the integers the script stores.  Memory limits
    are not modelled. *)
Module TF.

Record TensorBuffer : Type := mkBuffer {
  shape : list num;
  strides : list num;
  values : list Z
}.

Record Tensor : Type := mkTensor {
  tshape : list num;
  tvalues : list Z
}.

Definition sizeFromShape (shape : list num) : num :=
  fold_left num_mul shape (Int 1).

Fixpoint computeStrides (shape : list num) : list num :=
  match shape with
  | [] => []
  | _ :: rest =>
      match rest with
      | [] => []
      | _ :: _ => sizeFromShape rest :: computeStrides rest
      end
  end.

(** [new Float32Array(length)] *)
Definition Float32Array (length : num) : result (list Z) :=
  match length with
  | NaN => Ok []
  | Int n => if n <? 0 then Err RangeError else Ok (replicate (Z.to_nat n) 0)
  end.

(** Modelled from the spec: [tf.buffer(shape)] of the external tensor
    framework, "a structure of shape (M, N, 2)" that starts out all
    zero. *)
Definition buffer (shape : list num) : result TensorBuffer :=
  let! cells := Float32Array (sizeFromShape shape) in
  Ok (mkBuffer shape (computeStrides shape) cells).

Fixpoint locToIndex (strides locs : list num) : num :=
  match locs with
  | [] => Int 0
  | [l] => l
  | l :: locs' =>
      match strides with
      | s :: strides' => num_add (num_mul s l) (locToIndex strides' locs')
      | [] => NaN
      end
  end.

(** [cells[index] = v] on a typed array. *)
Definition store (cells : list Z) (index : num) (v : Z) : list Z :=
  match index with
  | Int k => if k <? 0 then cells else <[Z.to_nat k := v]> cells
  | NaN => cells
  end.

(** [cells[index]] on a typed array; [None] is [undefined]. *)
Definition load (cells : list Z) (index : num) : option Z :=
  match index with
  | Int k => if k <? 0 then None else cells !! Z.to_nat k
  | NaN => None
  end.

(** Modelled from the spec: [b.set(v, ...locs)] of the external tensor
    framework, called with as many coordinates as [b] has axes; it
    writes [v] into the cell at [locs]. *)
Definition set (v : Z) (locs : list num) (b : TensorBuffer) : TensorBuffer :=
  mkBuffer (shape b) (strides b) (store (values b) (locToIndex (strides b) locs) v).

(** Modelled from the spec: [b.toTensor()] of the external tensor
    framework; the tensor has the shape and the cells of the buffer. *)
Definition toTensor (b : TensorBuffer) : Tensor :=
  mkTensor (shape b) (values b).

(** The cell of a tensor at the coordinates [locs]. *)
Definition get (t : Tensor) (locs : list num) : option Z :=
  load (tvalues t) (locToIndex (computeStrides (tshape t)) locs).

End TF.

(** ** generateDataset *)

(** [sequence[j]] used as a coordinate: [undefined] past the end, which
    index arithmetic turns into [NaN]. *)
Definition item_at (sequence : list Z) (j : Z) : num :=
  if j <? 0 then NaN
  else match sequence !! Z.to_nat j with
       | Some d => Int d
       | None => NaN
       end.

(** [buffer.set(1, i, j, sequence[j])]: the body of the inner loop of
    [generateDataset] and of [getInput]. *)
Definition encodeBody (i : Z) (sequence : list Z) (j : Z)
    (b : TF.TensorBuffer) : TF.TensorBuffer :=
  TF.set 1 [Int i; Int j; item_at sequence j] b.

Record DatasetState : Type := mkDataset {
  sequencesBuffer : TF.TensorBuffer;
  labelsBuffer : TF.TensorBuffer;
  source : RNG
}.

(** One round of the outer loop of [generateDataset]. *)
Definition datasetBody (sequenceLength : num) (i : Z) (st : DatasetState) : DatasetState :=
  let '((sequence, label), g') := generateSequenceAndLabel sequenceLength (source st) in
  let sb := for_loop sequenceLength (encodeBody i sequence) (sequencesBuffer st) in
  let lb := TF.set label [Int i; Int 0] (labelsBuffer st) in
  mkDataset sb lb g'.

Definition generateDataset (numExamples sequenceLength : num) (g : RNG)
    : result ((TF.Tensor * TF.Tensor) * RNG) :=
  let! sb := TF.buffer [numExamples; sequenceLength; Int 2] in
  let! lb := TF.buffer [numExamples; Int 1] in
  let st := for_loop numExamples (datasetBody sequenceLength) (mkDataset sb lb g) in
  Ok ((TF.toTensor (sequencesBuffer st), TF.toTensor (labelsBuffer st)), source st).

(** The [i]-th pair [generateDataset] obtains from the generator: the
    generator run on the source as [i] earlier sequences have left it. *)
Definition exampleAt (g : RNG) (sequenceLength : num) (i : nat) : list Z * Z :=
  fst (generateSequenceAndLabel sequenceLength
         (mkRNG (draws g) (drawn g + i * trip_count sequenceLength))).

(** ** getInput *)

Definition inputs : list (list Z) :=
  [ [0; 1; 0; 1; 0; 1; 0; 0; 1; 0];
    [0; 1; 1; 1; 1; 0; 1; 0; 0; 1];
    [0; 0; 0; 0; 0; 0; 1; 0; 0; 1] ].

(** One round of the outer loop of [getInput]; [i] stays below
    [inputs.length], so [inputs[i]] is one of the three rows. *)
Definition inputBody (i : Z) (b : TF.TensorBuffer) : TF.TensorBuffer :=
  let input := default [] (inputs !! Z.to_nat i) in
  for_loop (Int sequenceLength) (encodeBody i input) b.

Definition getInput : result TF.Tensor :=
  let numExamples := Int (Z.of_nat (length inputs)) in
  let! inputBuffer := TF.buffer [numExamples; Int sequenceLength; Int 2] in
  Ok (TF.toTensor (for_loop numExamples inputBody inputBuffer)).

(** ** One-hot decoding

    The script never decodes a tensor.  Decoding is read off the words
    "the channel index holding the 1": at position [j] of example [i],
    the digit is the channel whose cell is 1. *)
Definition decodeDigit (t : TF.Tensor) (i j : Z) : option Z :=
  match TF.get t [Int i; Int j; Int 0], TF.get t [Int i; Int j; Int 1] with
  | Some 1, Some 0 => Some 0
  | Some 0, Some 1 => Some 1
  | _, _ => None
  end.

(** Position [j] of example [i] is one-hot for the digit [d]: channel
    [d] holds 1 and the other channel holds 0. *)
Definition one_hot_at (t : TF.Tensor) (i j d : Z) : Prop :=
  TF.get t [Int i; Int j; Int d] = Some 1
  /\ TF.get t [Int i; Int j; Int (1 - d)] = Some 0.

Definition decodeSequence (t : TF.Tensor) (i : Z) (len : nat) : list (option Z) :=
  map (fun j => decodeDigit t i (Z.of_nat j)) (seq 0 len).

(** ** Global variables of the script *)

(** How a variable was declared. *)
Inductive declaration : Type :=
  | Const
  | Let.

Record Binding (A : Type) : Type := mkBinding {
  declared : declaration;
  current : A
}.
Arguments mkBinding {A} declared current.
Arguments declared {A} b.
Arguments current {A} b.

(** [x = v]: an assignment to a [const] variable throws and leaves it
    as it was. *)
Definition assign {A : Type} (b : Binding A) (v : A) : result (Binding A) :=
  match declared b with
  | Const => Err TypeError
  | Let => Ok (mkBinding Let v)
  end.

(** ** The page and the training run *)

(** What the framework reports at the end of an epoch. *)
Record Logs : Type := mkLogs {
  loss : float;
  acc : float;
  val_loss : float;
  val_acc : float
}.

(** The text boxes of the page. *)
Record Page : Type := mkPage {
  results : string;
  train_epoch : Z;
  train_loss : float;
  train_acc : float;
  val_loss_box : float;
  val_acc_box : float
}.

(** What the script can change: the page, the global [cancelTraining],
    the random source, and the exceptions no handler caught.  [random]
    lists the draws the script's own calls of [Math.random] are going
    to get.  The framework calls [Math.random] for itself as well, when
    it builds the model and when [model.fit] shuffles; those draws are
    the framework's and are not listed here, and nothing below says
    where the browser's generator stands once the framework has run. *)
Record World : Type := mkWorld {
  page : Page;
  cancelTraining : Binding bool;
  random : RNG;
  uncaught : list error
}.

(** The top of the script: [const cancelTraining = false]. *)
Definition cancelTraining_decl : Binding bool := mkBinding Const false.

Definition initialWorld (p : Page) (g : RNG) : World :=
  mkWorld p cancelTraining_decl g [].

(** The model, as far as the script touches it: the [stopTraining] flag
    and the logs of the epochs that ran. *)
Record Model : Type := mkModel {
  stopTraining : bool;
  history : list Logs
}.

(** [function cancel() { cancelTraining = true; }] *)
Definition cancel (w : World) : result World :=
  let! b := assign (cancelTraining w) true in
  Ok (mkWorld (page w) b (random w) (uncaught w)).

(** The browser runs a click handler; an exception that leaves the
    handler is reported and the world stays as the handler found it. *)
Definition dispatch (handler : World -> result World) (w : World) : World :=
  match handler w with
  | Ok w' => w'
  | Err e => mkWorld (page w) (cancelTraining w) (random w) (uncaught w ++ [e])
  end.

(** The literal [0.9]: the double nearest to nine tenths. *)
Definition lit_0_9 : Q := 8106479329266893 # 9007199254740992.

(** [x > c] for a measurement [x]; false for [NaN]. *)
Definition float_gt (x : float) (c : Q) : bool :=
  match x with
  | Fin q => Qgtb q c
  | FNaN => false
  end.

(** The [onEpochEnd] callback of [train]. *)
Definition onEpochEnd (epoch : Z) (logs : Logs) (st : World * Model) : World * Model :=
  let (w, model) := st in
  let p := mkPage (results (page w)) (epoch + 1)
             (loss logs) (acc logs) (val_loss logs) (val_acc logs) in
  let w' := mkWorld p (cancelTraining w) (random w) (uncaught w) in
  if current (cancelTraining w) || float_gt (val_acc logs) lit_0_9
  then (w', mkModel true (history model))
  else (w', model).






Section Training.

(** The framework's side of a run: the logs it measures at the end of
    epoch [e], and what the trained model predicts for a tensor. *)
Variable epochLogs : Z -> Logs.
Variable predict : TF.Tensor -> list float.

(** The user's side: how often the cancel button is clicked while
    epoch [e] is running. *)
Variable cancelClicks : Z -> nat.

(** Modelled from the spec: one epoch of [model.fit] of the external
    framework.  The clicks that arrive while the epoch runs are handled
    when the loop yields, then the callback gets the epoch's logs. *)
Definition runEpoch (epoch : Z) (st : World * Model) : World * Model :=
  let (w, model) := st in
  let w1 := Nat.iter (cancelClicks epoch) (dispatch cancel) w in
  let logs := epochLogs epoch in
  onEpochEnd epoch logs (w1, mkModel (stopTraining model) (history model ++ [logs])).

(** Modelled from the spec: the epoch loop of [model.fit] of the
    external framework, "a cooperative cancellation token checked once
    per epoch": after the callback of each epoch it reads
    [stopTraining] and leaves when it is set. *)
Fixpoint fitLoop (remaining : nat) (epoch : Z) (st : World * Model) : World * Model :=
  match remaining with
  | O => st
  | S remaining' =>
      let st' := runEpoch epoch st in
      if stopTraining (snd st') then st' else fitLoop remaining' (epoch + 1) st'
  end.

(** Modelled from the spec: [model.fit(..., {epochs, ...})] of the
    external framework, on a model that has not run.  Only the epoch
    loop, the callback and the stop flag are modelled; the batches, the
    shuffling and the weights are the framework's. *)
Definition fit (epochs : Z) (w : World) : World * Model :=
  fitLoop (Z.to_nat epochs) 0 (w, mkModel false []).


End Training.

(** ** Layout of the inputs

    The two cells a digit gets in the inputs: channel 0 and channel 1,
    a 1 in the channel the digit names. *)
Definition onehot (d : Z) : list Z :=
  [if d =? 0 then 1 else 0; if d =? 1 then 1 else 0].

(** The other digit. *)
Definition flipDigit (d : Z) : Z := 1 - d.

(** * Properties *)

(** ** Loops *)

Section LoopFacts.

Context {St : Type}.
Implicit Types (body : Z -> St -> St) (s : St).

Lemma iterate_from_snoc n i body s :
  iterate_from (S n) i body s
  = body (i + Z.of_nat n) (iterate_from n i body s).
Proof.
  revert i s. induction n as [|n IH]; intros i s.
  - cbn. f_equal. lia.
  - change (iterate_from (S (S n)) i body s)
      with (iterate_from (S n) (i + 1) body (body i s)).
    rewrite IH. cbn [iterate_from]. f_equal. lia.
Qed.

Lemma for_guarded_from fuel i z body s :
  (Z.to_nat (z - i) < fuel)%nat ->
  for_guarded fuel i (Int z) body s
  = Some (iterate_from (Z.to_nat (z - i)) i body s).
Proof.
  revert i s. induction fuel as [|fuel IH]; intros i s Hfuel; [lia|].
  cbn [for_guarded num_lt].
  destruct (Z.ltb_spec i z) as [Hlt|Hge].
  - rewrite IH by lia.
    replace (Z.to_nat (z - i)) with (S (Z.to_nat (z - (i + 1)))) by lia.
    reflexivity.
  - replace (Z.to_nat (z - i)) with O by lia. reflexivity.
Qed.

(** The guarded loop, given more guard tests than it has rounds, ends
    in the state [for_loop] computes. *)
Lemma for_guarded_enough fuel bound body s :
  (trip_count bound < fuel)%nat ->
  for_guarded fuel 0 bound body s = Some (for_loop bound body s).
Proof.
  destruct bound as [|z]; intros Hfuel.
  - destruct fuel; [cbn in Hfuel; lia | reflexivity].
  - unfold for_loop. cbn [trip_count] in *.
    rewrite for_guarded_from; rewrite Z.sub_0_r; [reflexivity | assumption].
Qed.

Lemma for_loop_nat (n : nat) body s :
  for_loop (Int (Z.of_nat n)) body s = iterate_from n 0 body s.
Proof. unfold for_loop. cbn [trip_count]. by rewrite Nat2Z.id. Qed.

End LoopFacts.

(** ** Runs *)

Lemma lead_split c r :
  exists rest, r = replicate (lead c r) c ++ rest.
Proof.
  induction r as [|x r [rest IH]]; [by exists []|].
  cbn [lead]. destruct (Z.eqb_spec x c) as [->|_].
  - exists rest. cbn. by rewrite <- IH.
  - by exists (x :: r).
Qed.

Lemma lead_replicate_app c k post :
  (k <= lead c (replicate k c ++ post))%nat.
Proof.
  induction k as [|k IH]; [lia|].
  cbn. rewrite Z.eqb_refl. lia.
Qed.

Lemma has_run_nil T : 1 <= T -> ~ has_run T [].
Proof.
  intros HT (d & k & pre & post & Hk & Heq).
  destruct k; [lia|]. destruct pre; discriminate.
Qed.

(** A run in [y :: r] starts at [y] or lies in [r]. *)
Lemma has_run_cons T y r :
  1 <= T ->
  has_run T (y :: r) <-> T <= Z.of_nat (S (lead y r)) \/ has_run T r.
Proof.
  intros HT. split.
  - intros (d & k & pre & post & Hk & Heq).
    destruct pre as [|a pre].
    + destruct k as [|k]; [lia|].
      cbn in Heq. injection Heq as -> ->. left.
      pose proof (lead_replicate_app d k post). lia.
    + cbn in Heq. injection Heq as _ ->. right.
      by exists d, k, pre, post.
  - intros [Hlead | (d & k & pre & post & Hk & ->)].
    + destruct (lead_split y r) as [rest Hrest].
      exists y, (S (lead y r)), [], rest. split; [done|].
      cbn. by rewrite <- Hrest.
    + by exists d, k, (y :: pre), post.
Qed.

Lemma has_run_reverse T s : has_run T (reverse s) <-> has_run T s.
Proof.
  assert (Hdir : forall l, has_run T l -> has_run T (reverse l)).
  { intros l (d & k & pre & post & Hk & ->).
    exists d, k, (reverse post), (reverse pre). split; [done|].
    rewrite !reverse_app, reverse_replicate.
    by rewrite <- app_assoc. }
  split; [|apply Hdir].
  intros H. rewrite <- (reverse_involutive s). by apply Hdir.
Qed.

Lemma stretches_cons x r :
  exists rest, stretches (x :: r) = (x, Z.of_nat (S (lead x r))) :: rest.
Proof.
  revert x. induction r as [|y r IH]; intros x; [by exists []|].
  destruct (IH y) as [rest Hrest].
  change (stretches (x :: y :: r)) with
    (match stretches (y :: r) with
     | (y0, n) :: rest0 =>
         if x =? y0 then (x, n + 1) :: rest0 else (x, 1) :: (y0, n) :: rest0
     | [] => [(x, 1)]
     end).
  rewrite Hrest. cbn [lead].
  destruct (Z.eqb_spec x y) as [->|Hne].
  - rewrite Z.eqb_refl. eexists. f_equal. f_equal. lia.
  - destruct (Z.eqb_spec y x); [congruence|]. by eexists.
Qed.

Lemma maxStretch_cons x r :
  maxStretch (x :: r) = Z.max (Z.of_nat (S (lead x r))) (maxStretch r).
Proof.
  unfold maxStretch. destruct r as [|y r]; [reflexivity|].
  destruct (stretches_cons y r) as [rest Hrest].
  change (stretches (x :: y :: r)) with
    (match stretches (y :: r) with
     | (y0, n) :: rest0 =>
         if x =? y0 then (x, n + 1) :: rest0 else (x, 1) :: (y0, n) :: rest0
     | [] => [(x, 1)]
     end).
  rewrite Hrest. cbn [lead].
  destruct (Z.eqb_spec x y) as [->|Hne].
  - rewrite Z.eqb_refl. cbn [map snd fold_right]. lia.
  - destruct (Z.eqb_spec y x); [congruence|]. cbn [map snd fold_right]. lia.
Qed.

Lemma maxStretch_nonneg s : 0 <= maxStretch s.
Proof.
  induction s as [|x s IH]; [done|]. rewrite maxStretch_cons. lia.
Qed.

(** The longest stretch reaches [T] exactly when the list has a run of
    [T]. *)
Lemma maxStretch_has_run T s :
  1 <= T -> T <= maxStretch s <-> has_run T s.
Proof.
  intros HT. induction s as [|x s IH].
  - split; [cbn; lia | intros H; by apply has_run_nil in H].
  - rewrite maxStretch_cons, has_run_cons by done.
    rewrite <- IH. lia.
Qed.

(** ** The generator's scan *)

Lemma threshold_pos : 1 <= stretchLengthThreshold.
Proof. unfold stretchLengthThreshold. lia. Qed.

Lemma genAfter_S k g :
  genAfter (S k) g = genBody (Z.of_nat k) (genAfter k g).
Proof. unfold genAfter. by rewrite iterate_from_snoc. Qed.

Lemma drawnItem_binary g n : drawnItem g n = 0 \/ drawnItem g n = 1.
Proof. unfold drawnItem. destruct (Qgtb _ _); auto. Qed.

(** What the variables of the generator hold after [k] rounds.  The
    scan is stated on the sequence read backwards, newest digit first:
    [currentItem] is the newest digit, [stretchLength] the run it ends,
    and the label tells whether a run of the threshold has been seen. *)
Lemma genAfter_inv k g :
  let st := genAfter k g in
  sequence st = map (drawnItem g) (seq 0 k)
  /\ entropy st = mkRNG (draws g) (drawn g + k)
  /\ currentItem st = hd (-1) (reverse (sequence st))
  /\ stretchLength st = headRun (reverse (sequence st))
  /\ (label st = 0 \/ label st = 1)
  /\ (label st = 1 <-> has_run stretchLengthThreshold (reverse (sequence st))).
Proof.
  induction k as [|k IH]; cbn zeta.
  - cbn. rewrite Nat.add_0_r. destruct g; cbn.
    repeat split; auto; try discriminate.
    intros H. by apply has_run_nil in H; [|apply threshold_pos].
  - rewrite genAfter_S. cbn zeta in IH.
    destruct IH as (Hseq & Hent & Hcur & Hlen & Hbin & Hlab).
    set (st := genAfter k g) in *.
    unfold genBody, Math_random. rewrite Hent. cbn [draws drawn].
    fold (drawnItem g k). set (item := drawnItem g k).
    set (r := reverse (sequence st)) in *.
    assert (Hnew :
      (if currentItem st =? item
       then (currentItem st, stretchLength st + 1) else (item, 1))
      = (item, Z.of_nat (S (lead item r)))).
    { rewrite Hcur, Hlen. destruct r as [|x r']; cbn [hd headRun lead].
      - destruct (Z.eqb_spec (-1) item) as [Heq|_]; [rewrite <- Heq|]; f_equal; lia.
      - destruct (Z.eqb_spec x item) as [->|_]; [f_equal; lia | done]. }
    rewrite Hnew. cbn [sequence currentItem stretchLength label entropy].
    rewrite reverse_snoc. cbn [hd headRun].
    rewrite has_run_cons by apply threshold_pos. fold r.
    repeat split.
    + rewrite seq_S, map_app, Hseq. reflexivity.
    + f_equal. lia.
    + destruct (_ >=? _); auto.
    + destruct (Z.geb_spec (Z.of_nat (S (lead item r))) stretchLengthThreshold)
        as [Hge|Hlt]; [auto | intros Hl; right; by apply Hlab].
    + destruct (Z.geb_spec (Z.of_nat (S (lead item r))) stretchLengthThreshold)
        as [Hge|Hlt]; [done | intros [Hl|Hl]; [lia | by apply Hlab]].
Qed.

Lemma generateSequenceAndLabel_genAfter (N : nat) g :
  generateSequenceAndLabel (Int (Z.of_nat N)) g
  = ((sequence (genAfter N g), label (genAfter N g)), entropy (genAfter N g)).
Proof. unfold generateSequenceAndLabel. by rewrite for_loop_nat. Qed.

(** The two sequences the documentation labels by hand. *)
Example generateSequenceAndLabel_with_stretch :
  fst (generateSequenceAndLabel (Int 10) (drawsOf [0; 1; 1; 1; 1; 0; 1; 0; 0; 1]))
  = ([0; 1; 1; 1; 1; 0; 1; 0; 0; 1], 1).
Proof. reflexivity. Qed.

Example generateSequenceAndLabel_without_stretch :
  fst (generateSequenceAndLabel (Int 10) (drawsOf [0; 1; 0; 1; 0; 1; 0; 0; 1; 0]))
  = ([0; 1; 0; 1; 0; 1; 0; 0; 1; 0], 0).
Proof. reflexivity. Qed.

Example maxStretch_documented :
  maxStretch [0; 1; 1; 1; 1; 0; 1; 0; 0; 1] = 4
  /\ maxStretch [0; 1; 0; 1; 0; 1; 0; 0; 1; 0] = 2.
Proof. split; reflexivity. Qed.

Lemma genAfter_sequence_binary k g :
  Forall (fun d => d = 0 \/ d = 1) (sequence (genAfter k g)).
Proof.
  destruct (genAfter_inv k g) as (-> & _).
  apply List.Forall_forall. intros d Hd. apply List.in_map_iff in Hd.
  destruct Hd as (n & <- & _). apply drawnItem_binary.
Qed.

Lemma genAfter_label_run k g :
  label (genAfter k g) = 1
  <-> has_run stretchLengthThreshold (sequence (genAfter k g)).
Proof.
  destruct (genAfter_inv k g) as (_ & _ & _ & _ & _ & Hlab).
  cbn zeta in Hlab. by rewrite Hlab, has_run_reverse.
Qed.

(** Once set, the label stays: one more round never clears it. *)
Lemma genBody_keeps_label i st :
  label st = 1 -> label (genBody i st) = 1.
Proof.
  intros Hl. unfold genBody, Math_random.
  destruct (currentItem st =? _); cbn [label]; destruct (_ >=? _); done.
Qed.

(** The round in which the stretch reaches the threshold sets the label. *)
Lemma genBody_sets_label i st :
  stretchLengthThreshold <= stretchLength (genBody i st) ->
  label (genBody i st) = 1.
Proof.
  unfold genBody, Math_random.
  destruct (currentItem st =? _); cbn [label stretchLength];
    intros Hge;
    match goal with
    | |- context [?a >=? ?b] => destruct (Z.geb_spec a b)
    end; done || lia.
Qed.

Lemma genAfter_label_mono i j g :
  (i <= j)%nat -> label (genAfter i g) = 1 -> label (genAfter j g) = 1.
Proof.
  induction 1 as [|j _ IH]; [done|].
  intros Hl. rewrite genAfter_S. by apply genBody_keeps_label, IH.
Qed.

Lemma genAfter_reached i g :
  stretchLengthThreshold <= stretchLength (genAfter i g) ->
  label (genAfter i g) = 1.
Proof.
  destruct i as [|i].
  - cbn. unfold stretchLengthThreshold. lia.
  - rewrite genAfter_S. apply genBody_sets_label.
Qed.

(** C1: for every length [N] and every random source,
    [generateSequenceAndLabel] returns [N] digits, each 0 or 1 and each
    the digit of its draw, and a label that is 0 or 1; the label is 1
    exactly when the sequence has at least [stretchLengthThreshold] = 4
    equal digits side by side, and 0 exactly when it has not. *)
Theorem generateSequenceAndLabel_label_iff_run (N : nat) (g : RNG) :
  exists (s : list Z) (l : Z) (g' : RNG),
    generateSequenceAndLabel (Int (Z.of_nat N)) g = ((s, l), g')
    /\ length s = N
    /\ s = map (drawnItem g) (seq 0 N)
    /\ Forall (fun d => d = 0 \/ d = 1) s
    /\ stretchLengthThreshold = 4
    /\ (l = 1 <-> has_run stretchLengthThreshold s)
    /\ (l = 0 <-> ~ has_run stretchLengthThreshold s).
Proof.
  rewrite generateSequenceAndLabel_genAfter.
  eexists _, _, _. split; [reflexivity|].
  destruct (genAfter_inv N g) as (Hseq & _ & _ & _ & Hbin & _).
  pose proof (genAfter_label_run N g) as Hrun.
  repeat split.
  - cbn zeta in Hseq. by rewrite Hseq, length_map, length_seq.
  - exact Hseq.
  - apply genAfter_sequence_binary.
  - by apply Hrun.
  - by apply Hrun.
  - intros H0 Hr. apply Hrun in Hr. lia.
  - intros Hno. destruct Hbin as [H0|H1]; [done|]. by apply Hrun in H1.
Qed.

(** C6: during the scan, from the round in which the stretch length
    reaches the threshold onwards the label is 1 at the end of every
    round; a label that is 1 is never cleared; and at the end of every
    round the label is 1 exactly when the longest stretch of the digits
    scanned so far is at least the threshold. *)
Theorem label_latches (g : RNG) (N : nat) :
  (forall i j : nat, (i <= j)%nat -> (j <= N)%nat ->
     stretchLengthThreshold <= stretchLength (genAfter i g) ->
     label (genAfter j g) = 1)
  /\ (forall i j : nat, (i <= j)%nat -> (j <= N)%nat ->
        label (genAfter i g) = 1 -> label (genAfter j g) = 1)
  /\ (forall j : nat, (j <= N)%nat ->
        (label (genAfter j g) = 1
         <-> stretchLengthThreshold <= maxStretch (sequence (genAfter j g))))
  /\ (snd (fst (generateSequenceAndLabel (Int (Z.of_nat N)) g)) = 1
      <-> stretchLengthThreshold
          <= maxStretch (fst (fst (generateSequenceAndLabel (Int (Z.of_nat N)) g)))).
Proof.
  assert (Hmax : forall j,
    label (genAfter j g) = 1
    <-> stretchLengthThreshold <= maxStretch (sequence (genAfter j g))).
  { intros j. rewrite maxStretch_has_run by apply threshold_pos.
    apply genAfter_label_run. }
  split; [|split; [|split]].
  - intros i j Hij _ Hreach.
    apply (genAfter_label_mono i j g Hij), genAfter_reached, Hreach.
  - intros i j Hij _. apply genAfter_label_mono, Hij.
  - intros j _. apply Hmax.
  - rewrite generateSequenceAndLabel_genAfter. apply Hmax.
Qed.

Lemma label_latches_witness :
  label (genAfter 6 (mkRNG (fun _ => 3 # 4) 0)) = 1.
Proof.
  apply (proj1 (label_latches (mkRNG (fun _ => 3 # 4) 0) 6) 4%nat 6%nat);
    [lia | lia | vm_compute; discriminate].
Defined.

(** C7: with length 1 and the threshold at 4 the label is 0, whatever
    the draw. *)
Theorem generateSequenceAndLabel_single (g : RNG) :
  stretchLengthThreshold = 4
  /\ snd (fst (generateSequenceAndLabel (Int 1) g)) = 0
  /\ length (fst (fst (generateSequenceAndLabel (Int 1) g))) = 1%nat.
Proof.
  split; [reflexivity|].
  change (Int 1) with (Int (Z.of_nat 1)).
  rewrite generateSequenceAndLabel_genAfter, genAfter_S.
  change (genAfter 0 g) with (genInit g).
  unfold genBody, Math_random, genInit. cbn [entropy sequence currentItem stretchLength label].
  destruct (Qgtb _ _); cbn; done.
Qed.

(** ** Typed arrays and buffers *)

Lemma load_store_eq cells p v :
  0 <= p < Z.of_nat (length cells) ->
  TF.load (TF.store cells (Int p) v) (Int p) = Some v.
Proof.
  intros Hp. unfold TF.load, TF.store.
  destruct (Z.ltb_spec p 0); [lia|].
  apply list_lookup_insert_eq. lia.
Qed.

Lemma load_store_ne cells p q v :
  p <> q ->
  TF.load (TF.store cells (Int p) v) (Int q) = TF.load cells (Int q).
Proof.
  intros Hne. unfold TF.load, TF.store.
  destruct (Z.ltb_spec p 0), (Z.ltb_spec q 0); try done.
  apply list_lookup_insert_ne. lia.
Qed.

Lemma length_store cells index v :
  length (TF.store cells index v) = length cells.
Proof.
  unfold TF.store. destruct index as [|k]; [done|].
  destruct (k <? 0); [done | apply length_insert].
Qed.

Lemma load_replicate n p :
  0 <= p < Z.of_nat n -> TF.load (replicate n 0) (Int p) = Some 0.
Proof.
  intros Hp. unfold TF.load. destruct (Z.ltb_spec p 0); [lia|].
  apply lookup_replicate_2. lia.
Qed.

Lemma item_at_lookup ds (j : nat) d :
  ds !! j = Some d -> item_at ds (Z.of_nat j) = Int d.
Proof.
  intros Hd. unfold item_at. destruct (Z.ltb_spec (Z.of_nat j) 0); [lia|].
  by rewrite Nat2Z.id, Hd.
Qed.

(** Cells of different coordinates are different cells. *)
Lemma cell_injective n i j c i' j' c' :
  0 <= j < n -> 0 <= c < 2 -> 0 <= j' < n -> 0 <= c' < 2 ->
  2 * n * i + (2 * j + c) = 2 * n * i' + (2 * j' + c') ->
  i = i' /\ j = j' /\ c = c'.
Proof.
  intros Hj Hc Hj' Hc' Heq.
  assert (i = i') as -> by nia. lia.
Qed.

Lemma cell_in_range m n i j c :
  0 <= i < m -> 0 <= j < n -> 0 <= c < 2 ->
  0 <= 2 * n * i + (2 * j + c) < m * n * 2.
Proof. intros Hi Hj Hc. nia. Qed.

(** ** Encoding one sequence: the inner loop *)

Section EncodeRow.

Variables (w i : Z) (ds : list Z).
Hypothesis ds_binary : Forall binary ds.

Let cell (j d : Z) : Z := w * i + (2 * j + d).

Lemma encodeBody_index (b : TF.TensorBuffer) (j : nat) d :
  TF.strides b = [Int w; Int 2] ->
  ds !! j = Some d ->
  TF.values (encodeBody i ds (Z.of_nat j) b)
  = TF.store (TF.values b) (Int (cell (Z.of_nat j) d)) 1.
Proof.
  intros Hstr Hd. unfold encodeBody, TF.set. cbn [TF.values].
  rewrite Hstr, (item_at_lookup _ _ _ Hd). reflexivity.
Qed.

(** After [k] rounds the cells named by the first [k] digits hold 1
    and every other cell is as it was. *)
Lemma encode_rounds (b : TF.TensorBuffer) (k : nat) :
  TF.strides b = [Int w; Int 2] ->
  (k <= length ds)%nat ->
  let b' := iterate_from k 0 (encodeBody i ds) b in
  TF.shape b' = TF.shape b
  /\ TF.strides b' = TF.strides b
  /\ length (TF.values b') = length (TF.values b)
  /\ (forall (j : nat) d, (j < k)%nat -> ds !! j = Some d ->
        0 <= cell (Z.of_nat j) d < Z.of_nat (length (TF.values b)) ->
        TF.load (TF.values b') (Int (cell (Z.of_nat j) d)) = Some 1)
  /\ (forall p,
        (forall (j : nat) d, (j < k)%nat -> ds !! j = Some d ->
           p <> cell (Z.of_nat j) d) ->
        TF.load (TF.values b') (Int p) = TF.load (TF.values b) (Int p)).
Proof.
  intros Hstr. induction k as [|k IH]; intros Hk; cbn zeta.
  - cbn. repeat split; try done. intros; lia.
  - rewrite iterate_from_snoc, Z.add_0_l.
    destruct IH as (Hsh & Hst & Hlen & Hset & Hkeep); [lia|].
    set (bk := iterate_from k 0 (encodeBody i ds) b) in *.
    destruct (lookup_lt_is_Some_2 ds k) as [dk Hdk]; [lia|].
    assert (Hbk : binary dk).
    { eapply Forall_lookup_1; [exact ds_binary | exact Hdk]. }
    pose proof (encodeBody_index bk k dk (eq_trans Hst Hstr) Hdk) as Hval.
    repeat split.
    + exact Hsh.
    + exact Hst.
    + by rewrite Hval, length_store.
    + intros j d Hj Hd Hrange. rewrite Hval.
      destruct (decide (j = k)) as [->|Hne].
      * assert (d = dk) as -> by congruence.
        apply load_store_eq. by rewrite Hlen.
      * assert (Hbd : binary d).
        { eapply Forall_lookup_1; [exact ds_binary | exact Hd]. }
        rewrite load_store_ne; [apply Hset; [lia | done | done]|].
        unfold cell, binary in *. lia.
    + intros p Hp. rewrite Hval.
      rewrite load_store_ne; [apply Hkeep; intros; apply Hp; [lia | done]|].
      intros Heq. by apply (Hp k dk); [lia | |].
Qed.

End EncodeRow.

(** ** Building the dataset: the outer loop *)

Lemma buffer_rank3 m n :
  0 <= m * n * 2 ->
  TF.buffer [Int m; Int n; Int 2]
  = Ok (TF.mkBuffer [Int m; Int n; Int 2] [Int (2 * n); Int 2]
          (replicate (Z.to_nat (m * n * 2)) 0)).
Proof.
  intros Hsize. unfold TF.buffer, TF.Float32Array, TF.sizeFromShape.
  cbn [fold_left num_mul TF.computeStrides TF.sizeFromShape bind].
  rewrite Z.mul_1_l. destruct (Z.ltb_spec (m * n * 2) 0); [lia|].
  cbn [bind]. do 3 f_equal. f_equal. lia.
Qed.

Lemma buffer_rank2 m :
  0 <= m ->
  TF.buffer [Int m; Int 1]
  = Ok (TF.mkBuffer [Int m; Int 1] [Int 1] (replicate (Z.to_nat m) 0)).
Proof.
  intros Hm. unfold TF.buffer, TF.Float32Array, TF.sizeFromShape.
  cbn [fold_left num_mul TF.computeStrides TF.sizeFromShape bind].
  rewrite Z.mul_1_l, Z.mul_1_r. destruct (Z.ltb_spec m 0); [lia|]. reflexivity.
Qed.

Lemma get_rank3 m n cells i j c :
  TF.get (TF.mkTensor [Int m; Int n; Int 2] cells) [Int i; Int j; Int c]
  = TF.load cells (Int (2 * n * i + (2 * j + c))).
Proof.
  unfold TF.get.
  cbn [TF.tshape TF.tvalues TF.computeStrides TF.sizeFromShape fold_left
       num_mul num_add TF.locToIndex].
  do 2 f_equal. lia.
Qed.

Lemma get_rank2 m cells i :
  TF.get (TF.mkTensor [Int m; Int 1] cells) [Int i; Int 0]
  = TF.load cells (Int i).
Proof.
  unfold TF.get.
  cbn [TF.tshape TF.tvalues TF.computeStrides TF.sizeFromShape fold_left
       num_mul num_add TF.locToIndex].
  do 2 f_equal. lia.
Qed.

Section DatasetRounds.

Variables (n : nat) (g : RNG).

Let N : num := Int (Z.of_nat n).
Let w : Z := 2 * Z.of_nat n.
Let source_at (i : nat) : RNG := mkRNG (draws g) (drawn g + i * n).

Lemma exampleAt_genAfter i :
  exampleAt g N i
  = (sequence (genAfter n (source_at i)), label (genAfter n (source_at i))).
Proof.
  unfold exampleAt, N. cbn [trip_count]. rewrite Nat2Z.id.
  by rewrite generateSequenceAndLabel_genAfter.
Qed.

Lemma exampleAt_length i : length (exampleAt g N i).1 = n.
Proof.
  rewrite exampleAt_genAfter. cbn [fst].
  destruct (genAfter_inv n (source_at i)) as (-> & _).
  by rewrite length_map, length_seq.
Qed.

Lemma exampleAt_binary i : Forall binary (exampleAt g N i).1.
Proof. rewrite exampleAt_genAfter. apply genAfter_sequence_binary. Qed.

Lemma exampleAt_label_binary i : binary (exampleAt g N i).2.
Proof.
  rewrite exampleAt_genAfter. cbn [snd].
  by destruct (genAfter_inv n (source_at i)) as (_ & _ & _ & _ & Hbin & _).
Qed.

Lemma exampleAt_digit i j d :
  (exampleAt g N i).1 !! j = Some d -> (j < n)%nat /\ binary d.
Proof.
  intros Hd. split.
  - rewrite <- (exampleAt_length i). by eapply lookup_lt_Some.
  - eapply Forall_lookup_1; [apply exampleAt_binary | exact Hd].
Qed.

(** One round of the outer loop, on the source as [i] sequences left it. *)
Lemma datasetBody_round (i : nat) sb lb :
  datasetBody N (Z.of_nat i) (mkDataset sb lb (source_at i))
  = mkDataset
      (iterate_from n 0 (encodeBody (Z.of_nat i) (exampleAt g N i).1) sb)
      (TF.set (exampleAt g N i).2 [Int (Z.of_nat i); Int 0] lb)
      (source_at (S i)).
Proof.
  unfold datasetBody. cbn [source].
  rewrite exampleAt_genAfter. unfold N at 1.
  rewrite generateSequenceAndLabel_genAfter. cbn [fst snd].
  unfold N. rewrite for_loop_nat. f_equal.
  destruct (genAfter_inv n (source_at i)) as (_ & -> & _).
  unfold source_at. cbn [draws drawn]. f_equal. lia.
Qed.

(** What the buffers and the source hold after [t] rounds of the outer
    loop: each finished row has a 1 in the cell its digit names at every
    position, the other cells of the sequence buffer are untouched, the
    labels of the finished rows are stored, and [t] sequences have been
    drawn. *)
Lemma dataset_rounds (sb lb : TF.TensorBuffer) (t : nat) :
  TF.strides sb = [Int w; Int 2] ->
  TF.strides lb = [Int 1] ->
  let st := iterate_from t 0 (datasetBody N) (mkDataset sb lb g) in
  source st = source_at t
  /\ TF.shape (sequencesBuffer st) = TF.shape sb
  /\ TF.strides (sequencesBuffer st) = TF.strides sb
  /\ length (TF.values (sequencesBuffer st)) = length (TF.values sb)
  /\ TF.shape (labelsBuffer st) = TF.shape lb
  /\ TF.strides (labelsBuffer st) = TF.strides lb
  /\ length (TF.values (labelsBuffer st)) = length (TF.values lb)
  /\ (forall (i j : nat) d, (i < t)%nat ->
        (exampleAt g N i).1 !! j = Some d ->
        0 <= w * Z.of_nat i + (2 * Z.of_nat j + d)
          < Z.of_nat (length (TF.values sb)) ->
        TF.load (TF.values (sequencesBuffer st))
          (Int (w * Z.of_nat i + (2 * Z.of_nat j + d))) = Some 1)
  /\ (forall p,
        (forall (i j : nat) d, (i < t)%nat ->
           (exampleAt g N i).1 !! j = Some d ->
           p <> w * Z.of_nat i + (2 * Z.of_nat j + d)) ->
        TF.load (TF.values (sequencesBuffer st)) (Int p)
        = TF.load (TF.values sb) (Int p))
  /\ (forall i : nat, (i < t)%nat ->
        (i < length (TF.values lb))%nat ->
        TF.load (TF.values (labelsBuffer st)) (Int (Z.of_nat i))
        = Some (exampleAt g N i).2)
  /\ (forall p, Z.of_nat t <= p ->
        TF.load (TF.values (labelsBuffer st)) (Int p)
        = TF.load (TF.values lb) (Int p)).
Proof.
  intros Hsb Hlb. induction t as [|t IH]; cbn zeta.
  - cbn [iterate_from source sequencesBuffer labelsBuffer].
    repeat split; try done; try (intros; lia).
    unfold source_at. destruct g; cbn. f_equal. lia.
  - rewrite iterate_from_snoc, Z.add_0_l. cbn zeta in IH.
    destruct IH as (Hsrc & Hsh & Hst & Hlen & Hlsh & Hlst & Hllen
                    & Hset & Hkeep & Hlab & Hlkeep).
    destruct (iterate_from t 0 (datasetBody N) (mkDataset sb lb g))
      as [sbt lbt gt].
    cbn [source sequencesBuffer labelsBuffer] in *. subst gt.
    rewrite datasetBody_round. cbn [source sequencesBuffer labelsBuffer].
    destruct (encode_rounds w (Z.of_nat t) (exampleAt g N t).1
                (exampleAt_binary t) sbt n)
      as (Hsh' & Hst' & Hlen' & Hset' & Hkeep');
      [congruence | by rewrite exampleAt_length |].
    cbn zeta in *.
    assert (Hlval : TF.values (TF.set (exampleAt g N t).2 [Int (Z.of_nat t); Int 0] lbt)
                    = TF.store (TF.values lbt) (Int (Z.of_nat t)) (exampleAt g N t).2).
    { unfold TF.set. cbn [TF.values]. rewrite Hlst, Hlb.
      cbn [TF.locToIndex num_mul num_add]. do 2 f_equal. lia. }
    repeat split.
    + congruence.
    + congruence.
    + congruence.
    + done.
    + done.
    + by rewrite Hlval, length_store.
    + intros i j d Hi Hd Hrange.
      destruct (exampleAt_digit _ _ _ Hd) as [Hj Hbd].
      destruct (decide (i = t)) as [->|Hne].
      * apply Hset'; [done | done | by rewrite Hlen].
      * rewrite Hkeep'; [apply Hset; [lia | done | done]|].
        intros j' d' Hj' Hd'.
        destruct (exampleAt_digit _ _ _ Hd') as [_ Hbd'].
        intros Heq. unfold w in Heq.
        apply cell_injective in Heq; unfold binary in *; lia.
    + intros p Hp. rewrite Hkeep'; [apply Hkeep|].
      * intros i j d Hi. apply Hp. lia.
      * intros j d _ Hd. by apply Hp; [lia|].
    + intros i Hi Hrange. rewrite Hlval.
      destruct (decide (i = t)) as [->|Hne].
      * apply load_store_eq. lia.
      * rewrite load_store_ne by lia. apply Hlab; [lia | done].
    + intros p Hp. rewrite Hlval, load_store_ne by lia. apply Hlkeep. lia.
Qed.

End DatasetRounds.

(** The dataset [generateDataset] returns for [m] examples of length
    [n]: the shapes, the sizes, every cell of the inputs and every
    label, and the source [m * n] draws further on. *)
Lemma generateDataset_cells (m n : nat) (g : RNG) :
  let M := Int (Z.of_nat m) in
  let N := Int (Z.of_nat n) in
  exists xcells ycells : list Z,
    generateDataset M N g
    = Ok ((TF.mkTensor [M; N; Int 2] xcells, TF.mkTensor [M; Int 1] ycells),
          mkRNG (draws g) (drawn g + m * n))
    /\ length xcells = (m * n * 2)%nat
    /\ length ycells = m
    /\ (forall (i j : nat) d c, (i < m)%nat ->
          (exampleAt g N i).1 !! j = Some d -> 0 <= c < 2 ->
          TF.get (TF.mkTensor [M; N; Int 2] xcells)
            [Int (Z.of_nat i); Int (Z.of_nat j); Int c]
          = Some (if c =? d then 1 else 0))
    /\ (forall i : nat, (i < m)%nat ->
          TF.get (TF.mkTensor [M; Int 1] ycells) [Int (Z.of_nat i); Int 0]
          = Some (exampleAt g N i).2).
Proof.
  cbn zeta. unfold generateDataset.
  rewrite buffer_rank3, buffer_rank2 by lia. cbn [bind].
  rewrite for_loop_nat.
  set (sb := TF.mkBuffer _ _ _). set (lb := TF.mkBuffer _ _ _).
  destruct (dataset_rounds n g sb lb m eq_refl eq_refl)
    as (Hsrc & Hsh & _ & Hlen & Hlsh & _ & Hllen & Hset & Hkeep & Hlab & _).
  cbn zeta in *.
  destruct (iterate_from m 0 _ _) as [sbm lbm gm].
  cbn [source sequencesBuffer labelsBuffer] in *. subst gm.
  destruct sbm as [xshape xstrides xcells], lbm as [yshape ystrides ycells].
  unfold TF.toTensor. cbn [TF.shape TF.values] in *. subst xshape yshape.
  assert (Hxlen : length xcells = (m * n * 2)%nat).
  { rewrite Hlen. subst sb. cbn [TF.values]. rewrite length_replicate. lia. }
  assert (Hylen : length ycells = m).
  { rewrite Hllen. subst lb. cbn [TF.values]. rewrite length_replicate. lia. }
  exists xcells, ycells. split; [reflexivity|].
  split; [exact Hxlen|]. split; [exact Hylen|]. split.
  - intros i j d c Hi Hd Hc. rewrite get_rank3.
    destruct (exampleAt_digit _ _ _ _ _ Hd) as [Hj Hbd].
    assert (Hin : forall c', 0 <= c' < 2 ->
      0 <= 2 * Z.of_nat n * Z.of_nat i + (2 * Z.of_nat j + c')
        < Z.of_nat (length (TF.values sb))).
    { intros c' Hc'. subst sb. cbn [TF.values]. rewrite length_replicate.
      pose proof (cell_in_range (Z.of_nat m) (Z.of_nat n) (Z.of_nat i)
                    (Z.of_nat j) c'). lia. }
    destruct (Z.eqb_spec c d) as [->|Hne].
    + apply (Hset i j d Hi Hd). apply Hin. unfold binary in Hbd. lia.
    + rewrite Hkeep.
      * subst sb. cbn [TF.values]. apply load_replicate.
        specialize (Hin c Hc). cbn [TF.values] in Hin.
        by rewrite length_replicate in Hin.
      * intros i' j' d' _ Hd' Heq.
        destruct (exampleAt_digit _ _ _ _ _ Hd') as [Hj' Hbd'].
        apply cell_injective in Heq; unfold binary in *; try lia.
        destruct Heq as (Hi' & Hj'' & ->).
        apply Nat2Z.inj in Hi', Hj''. subst i' j'. congruence.
  - intros i Hi. rewrite get_rank2. apply Hlab; [done|].
    subst lb. cbn [TF.values]. rewrite length_replicate. lia.
Qed.

Lemma generateDataset_one_hot (m n : nat) (g : RNG) xcells (i j : nat) d :
  (forall (i j : nat) d c, (i < m)%nat ->
     (exampleAt g (Int (Z.of_nat n)) i).1 !! j = Some d -> 0 <= c < 2 ->
     TF.get (TF.mkTensor [Int (Z.of_nat m); Int (Z.of_nat n); Int 2] xcells)
       [Int (Z.of_nat i); Int (Z.of_nat j); Int c]
     = Some (if c =? d then 1 else 0)) ->
  (i < m)%nat ->
  (exampleAt g (Int (Z.of_nat n)) i).1 !! j = Some d ->
  one_hot_at (TF.mkTensor [Int (Z.of_nat m); Int (Z.of_nat n); Int 2] xcells)
    (Z.of_nat i) (Z.of_nat j) d.
Proof.
  intros Hget Hi Hd.
  destruct (exampleAt_digit _ _ _ _ _ Hd) as [_ Hbd].
  split.
  - rewrite (Hget i j d d Hi Hd) by (unfold binary in Hbd; lia).
    by rewrite Z.eqb_refl.
  - rewrite (Hget i j d (1 - d) Hi Hd) by (unfold binary in Hbd; lia).
    destruct (Z.eqb_spec (1 - d) d); [lia | done].
Qed.

Lemma decodeDigit_one_hot t i j d :
  binary d -> one_hot_at t i j d -> decodeDigit t i j = Some d.
Proof.
  unfold one_hot_at, decodeDigit.
  intros [-> | ->]; [change (1 - 0) with 1 | change (1 - 1) with 0];
    intros [H1 H0]; by rewrite H1, H0.
Qed.

Lemma getInput_value :
  exists cells, getInput = Ok (TF.mkTensor [Int 3; Int 10; Int 2] cells)
                /\ length cells = 60%nat.
Proof. eexists. split; vm_compute; reflexivity. Qed.

Lemma getInput_one_hot t (i j : nat) row d :
  getInput = Ok t ->
  inputs !! i = Some row -> row !! j = Some d ->
  binary d /\ one_hot_at t (Z.of_nat i) (Z.of_nat j) d.
Proof.
  intros Ht Hrow Hd.
  assert (Hval : Ok t = getInput) by done. vm_compute in Hval.
  injection Hval as ->.
  destruct i as [|[|[|i]]]; cbn in Hrow; try discriminate;
    injection Hrow as <-;
    destruct j as [|[|[|[|[|[|[|[|[|[|j]]]]]]]]]]; cbn in Hd; try discriminate;
    injection Hd as <-; vm_compute; auto.
Qed.

Lemma nat_of_nonneg (z : Z) : 0 <= z -> exists k : nat, z = Z.of_nat k.
Proof. intros Hz. exists (Z.to_nat z). lia. Qed.

(** Every position of the inputs of a dataset is one-hot for the digit
    generated there. *)
Lemma generateDataset_position (M N : Z) (g : RNG) xs ys g' (i j : Z) :
  generateDataset (Int M) (Int N) g = Ok ((xs, ys), g') ->
  0 <= i < M -> 0 <= j < N ->
  exists d : Z,
    (exampleAt g (Int N) (Z.to_nat i)).1 !! Z.to_nat j = Some d
    /\ binary d
    /\ one_hot_at xs i j d.
Proof.
  intros Heq Hi Hj.
  destruct (nat_of_nonneg M) as [m ->]; [lia|].
  destruct (nat_of_nonneg N) as [n ->]; [lia|].
  destruct (generateDataset_cells m n g)
    as (xcells & ycells & Heq0 & _ & _ & Hx & _).
  cbn zeta in *. rewrite Heq in Heq0. injection Heq0 as -> _ _.
  destruct (lookup_lt_is_Some_2 (exampleAt g (Int (Z.of_nat n)) (Z.to_nat i)).1
              (Z.to_nat j)) as [d Hd].
  { rewrite exampleAt_length. lia. }
  exists d. split; [exact Hd|].
  split; [by destruct (exampleAt_digit _ _ _ _ _ Hd)|].
  rewrite <- (Z2Nat.id i), <- (Z2Nat.id j) by lia.
  apply (generateDataset_one_hot m n g xcells); [done | lia | done].
Qed.

(** C4: for positive [M] and [N], [generateDataset] returns; the inputs
    have shape (M, N, 2) and [M * N * 2] cells, the labels have shape
    (M, 1) and [M] cells, each 0 or 1; example [i] is the [i]-th pair
    the generator produced, a sequence of [N] digits each 0 or 1 with
    its label stored at [(i, 0)], and at every position the inputs are
    one-hot for the digit there. *)
Theorem generateDataset_shape_and_cells (M N : Z) (g : RNG) :
  0 < M -> 0 < N ->
  exists (xs ys : TF.Tensor) (g' : RNG),
    generateDataset (Int M) (Int N) g = Ok ((xs, ys), g')
    /\ TF.tshape xs = [Int M; Int N; Int 2]
    /\ Z.of_nat (length (TF.tvalues xs)) = M * N * 2
    /\ TF.tshape ys = [Int M; Int 1]
    /\ Z.of_nat (length (TF.tvalues ys)) = M
    /\ Forall binary (TF.tvalues ys)
    /\ forall i : Z, 0 <= i < M ->
         Z.of_nat (length (exampleAt g (Int N) (Z.to_nat i)).1) = N
         /\ Forall binary (exampleAt g (Int N) (Z.to_nat i)).1
         /\ TF.get ys [Int i; Int 0] = Some (exampleAt g (Int N) (Z.to_nat i)).2
         /\ forall j : Z, 0 <= j < N ->
              exists d : Z,
                (exampleAt g (Int N) (Z.to_nat i)).1 !! Z.to_nat j = Some d
                /\ binary d
                /\ one_hot_at xs i j d.
Proof.
  intros HM HN.
  destruct (nat_of_nonneg M) as [m Hm]; [lia|].
  destruct (nat_of_nonneg N) as [n Hn]; [lia|].
  destruct (generateDataset_cells m n g)
    as (xcells & ycells & Heq & Hxlen & Hylen & Hx & Hy).
  cbn zeta in *. rewrite <- Hm, <- Hn in Heq.
  eexists _, _, _. split; [exact Heq|]. cbn [TF.tshape TF.tvalues].
  split; [reflexivity|]. split; [nia|]. split; [reflexivity|].
  split; [lia|]. split.
  - apply Forall_lookup_2. intros k x Hk.
    assert (Hkm : (k < m)%nat).
    { rewrite <- Hylen. by eapply lookup_lt_Some. }
    specialize (Hy k Hkm). rewrite get_rank2 in Hy.
    unfold TF.load in Hy. destruct (Z.ltb_spec (Z.of_nat k) 0); [lia|].
    rewrite Nat2Z.id, Hk in Hy. injection Hy as ->.
    apply exampleAt_label_binary.
  - intros i Hi.
    assert (Him : (Z.to_nat i < m)%nat) by lia.
    split; [rewrite Hn, exampleAt_length; lia|].
    split; [rewrite Hn; apply exampleAt_binary|].
    split.
    { rewrite get_rank2. specialize (Hy _ Him).
      rewrite get_rank2, Z2Nat.id in Hy by lia. by rewrite Hn. }
    intros j Hj. by eapply generateDataset_position.
Qed.

Lemma generateDataset_shape_and_cells_witness :
  exists (xs ys : TF.Tensor) (g' : RNG),
    generateDataset (Int 2) (Int 3) (mkRNG (fun k => Z.of_nat k # 5) 0)
    = Ok ((xs, ys), g')
    /\ TF.tshape xs = [Int 2; Int 3; Int 2]
    /\ TF.tshape ys = [Int 2; Int 1].
Proof.
  destruct (generateDataset_shape_and_cells 2 3 (mkRNG (fun k => Z.of_nat k # 5) 0))
    as (xs & ys & g' & Heq & Hx & _ & Hy & _); [lia | lia |].
  by exists xs, ys, g'.
Defined.

(** C10: in the inputs [generateDataset] builds, and in the tensor
    [getInput] builds, every position of every example is one-hot: the
    channel named by the digit at that position holds 1, the other
    channel holds 0, and the digit is 0 or 1. *)
Theorem inputs_one_hot_everywhere :
  (forall (M N : Z) (g : RNG) (xs ys : TF.Tensor) (g' : RNG) (i j : Z),
     generateDataset (Int M) (Int N) g = Ok ((xs, ys), g') ->
     0 <= i < M -> 0 <= j < N ->
     exists d : Z,
       (exampleAt g (Int N) (Z.to_nat i)).1 !! Z.to_nat j = Some d
       /\ binary d
       /\ one_hot_at xs i j d)
  /\ (exists t : TF.Tensor,
        getInput = Ok t
        /\ forall i j : Z, 0 <= i < 3 -> 0 <= j < sequenceLength ->
             exists (row : list Z) (d : Z),
               inputs !! Z.to_nat i = Some row
               /\ row !! Z.to_nat j = Some d
               /\ binary d
               /\ one_hot_at t i j d).
Proof.
  split; [apply generateDataset_position|].
  destruct getInput_value as (cells & Heq & _).
  eexists. split; [exact Heq|].
  intros i j Hi Hj. unfold sequenceLength in Hj.
  destruct (lookup_lt_is_Some_2 inputs (Z.to_nat i)) as [row Hrow];
    [cbn; lia|].
  assert (Hlen : length row = 10%nat).
  { assert (Hin : In row inputs).
    { apply list_elem_of_In. by eapply list_elem_of_lookup_2. }
    cbn in Hin. by destruct Hin as [<-|[<-|[<-|[]]]]. }
  destruct (lookup_lt_is_Some_2 row (Z.to_nat j)) as [d Hd]; [lia|].
  exists row, d. split; [done|]. split; [done|].
  rewrite <- (Z2Nat.id i), <- (Z2Nat.id j) by lia.
  by apply (getInput_one_hot _ _ _ row).
Qed.

(** ** Decoding *)

Lemma map_Some_inj (s s' : list Z) : map Some s = map Some s' -> s = s'.
Proof.
  revert s'. induction s as [|x s IH]; intros [|x' s'] Heq; try discriminate.
  - reflexivity.
  - cbn in Heq. injection Heq as -> Heq. f_equal. by apply IH.
Qed.

(** A tensor that is one-hot for the digits of [s] along example [i]
    decodes to [s]. *)
Lemma decodeSequence_one_hot t (i : Z) (s : list Z) :
  Forall binary s ->
  (forall (j : nat) d, s !! j = Some d -> one_hot_at t i (Z.of_nat j) d) ->
  decodeSequence t i (length s) = map Some s.
Proof.
  intros Hbin Hhot. unfold decodeSequence.
  change (map ?f ?l) with (f <$> l).
  apply list_eq. intros j. rewrite !list_lookup_fmap.
  destruct (s !! j) as [d|] eqn:Hd.
  - rewrite lookup_seq_lt by (by eapply lookup_lt_Some). cbn.
    f_equal. apply decodeDigit_one_hot; [|by apply Hhot].
    eapply Forall_lookup_1; [exact Hbin | exact Hd].
  - rewrite lookup_seq_ge; [done|]. by apply lookup_ge_None.
Qed.

(** The inner loop run on a fresh buffer: row [i] is one-hot for [s]. *)
Lemma encode_fresh_row (M i : nat) (s : list Z) :
  Forall binary s -> (i < M)%nat ->
  exists b : TF.TensorBuffer,
    TF.buffer [Int (Z.of_nat M); Int (Z.of_nat (length s)); Int 2] = Ok b
    /\ forall (j : nat) d, s !! j = Some d ->
         one_hot_at
           (TF.toTensor (for_loop (Int (Z.of_nat (length s)))
                           (encodeBody (Z.of_nat i) s) b))
           (Z.of_nat i) (Z.of_nat j) d.
Proof.
  intros Hbin Hi. set (n := length s).
  rewrite buffer_rank3 by lia. eexists. split; [reflexivity|].
  rewrite for_loop_nat.
  set (b := TF.mkBuffer _ _ _).
  destruct (encode_rounds (2 * Z.of_nat n) (Z.of_nat i) s Hbin b n eq_refl)
    as (Hsh & _ & Hlen & Hset & Hkeep); [done|]. cbn zeta in *.
  destruct (iterate_from n 0 _ b) as [shape' strides' cells'].
  unfold TF.toTensor. cbn [TF.shape TF.values] in *. subst shape'.
  assert (Hsize : length (TF.values b) = Z.to_nat (Z.of_nat M * Z.of_nat n * 2)).
  { subst b. cbn [TF.values]. apply length_replicate. }
  assert (Hin : forall (j : nat) c, (j < n)%nat -> 0 <= c < 2 ->
    0 <= 2 * Z.of_nat n * Z.of_nat i + (2 * Z.of_nat j + c)
      < Z.of_nat (length (TF.values b))).
  { intros j c Hj Hc. rewrite Hsize.
    pose proof (cell_in_range (Z.of_nat M) (Z.of_nat n) (Z.of_nat i)
                  (Z.of_nat j) c). lia. }
  intros j d Hd.
  assert (Hj : (j < n)%nat) by (by eapply lookup_lt_Some).
  assert (Hbd : binary d) by (eapply Forall_lookup_1; [exact Hbin | exact Hd]).
  change (TF.shape b) with [Int (Z.of_nat M); Int (Z.of_nat n); Int 2].
  split; rewrite get_rank3.
  - apply (Hset j d Hj Hd). apply Hin; [done|]. unfold binary in Hbd. lia.
  - rewrite Hkeep.
    + subst b. cbn [TF.values]. apply load_replicate.
      rewrite <- Hsize. apply Hin; [done|]. unfold binary in Hbd. lia.
    + intros j' d' Hj' Hd' Heq.
      assert (Hbd' : binary d')
        by (eapply Forall_lookup_1; [exact Hbin | exact Hd']).
      apply cell_injective in Heq; unfold binary in *; try lia.
      destruct Heq as (_ & Hjj & Hdd). apply Nat2Z.inj in Hjj. subst j'.
      rewrite Hd in Hd'. injection Hd' as <-. lia.
Qed.

(** C5: encoding a binary sequence [s] as row [i] of a fresh buffer and
    decoding that row, by taking at each position the channel that
    holds the 1, gives back the digits of [s]; two binary sequences of
    one length have the same encoding exactly when they are the same
    sequence; and the rows of a generated dataset and of the fixed
    inputs decode to the sequences they were built from. *)
Theorem one_hot_roundtrip (M i : nat) (s s' : list Z) :
  Forall binary s -> Forall binary s' -> length s = length s' ->
  (i < M)%nat ->
  (exists b : TF.TensorBuffer,
     TF.buffer [Int (Z.of_nat M); Int (Z.of_nat (length s)); Int 2] = Ok b
     /\ let encoded (q : list Z) :=
          TF.toTensor (for_loop (Int (Z.of_nat (length q)))
                         (encodeBody (Z.of_nat i) q) b) in
        decodeSequence (encoded s) (Z.of_nat i) (length s) = map Some s
        /\ (encoded s = encoded s' <-> s = s'))
  /\ (forall g : RNG, exists xs ys g',
        generateDataset (Int (Z.of_nat M)) (Int (Z.of_nat (length s))) g
        = Ok ((xs, ys), g')
        /\ decodeSequence xs (Z.of_nat i) (length s)
           = map Some (exampleAt g (Int (Z.of_nat (length s))) i).1)
  /\ (exists t, getInput = Ok t
        /\ forall (k : nat) row, inputs !! k = Some row ->
             decodeSequence t (Z.of_nat k) (length row) = map Some row).
Proof.
  intros Hbin Hbin' Hlen Hi. split; [|split].
  - destruct (encode_fresh_row M i s Hbin Hi) as (b & Hb & Hhot).
    destruct (encode_fresh_row M i s' Hbin' Hi) as (b' & Hb' & Hhot').
    rewrite <- Hlen, Hb in Hb'. injection Hb' as <-.
    exists b. split; [exact Hb|]. cbn zeta.
    pose proof (decodeSequence_one_hot _ _ s Hbin Hhot) as Hdec.
    pose proof (decodeSequence_one_hot _ _ s' Hbin' Hhot') as Hdec'.
    split; [exact Hdec|]. split; [|by intros ->].
    intros Heq. apply map_Some_inj.
    rewrite <- Hdec, <- Hdec', Heq. by rewrite Hlen.
  - intros g.
    destruct (generateDataset_cells M (length s) g)
      as (xcells & ycells & Heq & _ & _ & Hx & _). cbn zeta in *.
    eexists _, _, _. split; [exact Heq|].
    pose proof (decodeSequence_one_hot
                  (TF.mkTensor [Int (Z.of_nat M); Int (Z.of_nat (length s)); Int 2] xcells)
                  (Z.of_nat i) (exampleAt g (Int (Z.of_nat (length s))) i).1
                  (exampleAt_binary _ g i)) as Hdec.
    rewrite exampleAt_length in Hdec. apply Hdec.
    intros j d Hd. by apply (generateDataset_one_hot M (length s) g xcells).
  - destruct getInput_value as (cells & Heq & _).
    eexists. split; [exact Heq|].
    intros k row Hrow. apply decodeSequence_one_hot.
    + apply Forall_lookup_2. intros j d Hd.
      by destruct (getInput_one_hot _ k j row d Heq Hrow Hd).
    + intros j d Hd.
      by destruct (getInput_one_hot _ k j row d Heq Hrow Hd).
Qed.

Lemma one_hot_roundtrip_witness :
  exists b : TF.TensorBuffer,
    TF.buffer [Int 2; Int 3; Int 2] = Ok b
    /\ decodeSequence
         (TF.toTensor (for_loop (Int 3) (encodeBody 1 [0; 1; 1]) b)) 1 3
       = [Some 0; Some 1; Some 1].
Proof.
  destruct (one_hot_roundtrip 2 1 [0; 1; 1] [1; 1; 0]) as [(b & Hb & Hdec & _) _].
  - repeat (apply List.Forall_cons; [unfold binary; lia|]). apply List.Forall_nil.
  - repeat (apply List.Forall_cons; [unfold binary; lia|]). apply List.Forall_nil.
  - reflexivity.
  - lia.
  - exists b. split; [exact Hb | exact Hdec].
Defined.

(** ** Arguments that are not positive *)

Lemma generateSequenceAndLabel_empty g :
  generateSequenceAndLabel (Int 0) g = (([], 0), g).
Proof. reflexivity. Qed.





(** ** Stopping *)

Lemma Qgtb_lt (a b : Q) : Qgtb a b = true <-> (b < a)%Q.
Proof.
  unfold Qgtb. rewrite negb_true_iff. split.
  - intros Hle. apply Qnot_le_lt. intros H.
    apply Qle_bool_iff in H. congruence.
  - intros Hlt. destruct (Qle_bool a b) eqn:Hle; [|done].
    apply Qle_bool_iff in Hle. by apply Qlt_not_le in Hlt.
Qed.

Lemma float_gt_exceeds (x : float) (c : Q) :
  float_gt x c = true <-> exists q : Q, x = Fin q /\ (c < q)%Q.
Proof.
  destruct x as [|q]; cbn [float_gt].
  - split; [done | by intros (q & Hq & _)].
  - rewrite Qgtb_lt. split; [by exists q|].
    intros (q' & Hq & Hlt). by injection Hq as ->.
Qed.

Lemma onEpochEnd_stopTraining epoch logs w model :
  stopTraining (onEpochEnd epoch logs (w, model)).2
  = stopTraining model
    || (current (cancelTraining w) || float_gt (val_acc logs) lit_0_9).
Proof.
  unfold onEpochEnd.
  destruct (current (cancelTraining w) || float_gt (val_acc logs) lit_0_9);
    cbn [snd stopTraining]; by rewrite ?orb_true_r, ?orb_false_r.
Qed.

Lemma onEpochEnd_world epoch logs w model :
  cancelTraining (onEpochEnd epoch logs (w, model)).1 = cancelTraining w
  /\ uncaught (onEpochEnd epoch logs (w, model)).1 = uncaught w
  /\ random (onEpochEnd epoch logs (w, model)).1 = random w
  /\ train_epoch (page (onEpochEnd epoch logs (w, model)).1) = epoch + 1
  /\ results (page (onEpochEnd epoch logs (w, model)).1) = results (page w)
  /\ history (onEpochEnd epoch logs (w, model)).2 = history model.
Proof.
  unfold onEpochEnd.
  destruct (current (cancelTraining w) || float_gt (val_acc logs) lit_0_9);
    done.
Qed.

Lemma fitLoop_S epochLogs cancelClicks (remaining : nat) (epoch : Z) st :
  fitLoop epochLogs cancelClicks (S remaining) epoch st
  = (let st' := runEpoch epochLogs cancelClicks epoch st in
     if stopTraining st'.2 then st'
     else fitLoop epochLogs cancelClicks remaining (epoch + 1) st').
Proof. reflexivity. Qed.

Section FitFacts.

Variable epochLogs : Z -> Logs.

(** Without a click, the epoch loop runs until the first epoch whose
    validation accuracy exceeds 0.9, that epoch included. *)
Lemma fitLoop_until_accurate (k remaining : nat) (epoch : Z) w model :
  current (cancelTraining w) = false ->
  stopTraining model = false ->
  (k < remaining)%nat ->
  (forall e, epoch <= e < epoch + Z.of_nat k ->
     float_gt (val_acc (epochLogs e)) lit_0_9 = false) ->
  float_gt (val_acc (epochLogs (epoch + Z.of_nat k))) lit_0_9 = true ->
  let st := fitLoop epochLogs (fun _ => O) remaining epoch (w, model) in
  stopTraining st.2 = true
  /\ length (history st.2) = (length (history model) + S k)%nat
  /\ train_epoch (page st.1) = epoch + Z.of_nat k + 1
  /\ cancelTraining st.1 = cancelTraining w.
Proof.
  revert remaining epoch w model.
  induction k as [|k IH]; intros remaining epoch w model Hflag Hstop Hrem Hlow Hhigh;
    (destruct remaining as [|remaining]; [lia|]); cbn zeta; cbn [fitLoop];
    unfold runEpoch; cbn [Nat.iter];
    pose proof (onEpochEnd_stopTraining epoch (epochLogs epoch) w
                  (mkModel (stopTraining model) (history model ++ [epochLogs epoch])))
      as Hs;
    pose proof (onEpochEnd_world epoch (epochLogs epoch) w
                  (mkModel (stopTraining model) (history model ++ [epochLogs epoch])))
      as (Hc & _ & _ & Hep & _ & Hh);
    destruct (onEpochEnd epoch (epochLogs epoch) _) as [w' model'];
    cbn [fst snd stopTraining history] in *;
    rewrite Hflag, Hstop in Hs.
  - rewrite Z.add_0_r in Hhigh. rewrite Hhigh in Hs. cbn [orb] in Hs.
    rewrite Hs. cbn [fst snd]. rewrite Hs, Hh, Hep, Hc, length_app.
    cbn [length]. repeat split; lia.
  - rewrite (Hlow epoch) in Hs by lia. cbn [orb] in Hs. rewrite Hs.
    destruct (IH remaining (epoch + 1) w' model') as (Hs' & Hh' & Hep' & Hc').
    + by rewrite Hc.
    + exact Hs.
    + lia.
    + intros e He. apply Hlow. lia.
    + replace (epoch + 1 + Z.of_nat k) with (epoch + Z.of_nat (S k)) by lia.
      exact Hhigh.
    + cbn zeta in *. rewrite Hs', Hh', Hep', Hc', Hh, Hc, length_app.
      cbn [length]. repeat split; lia.
Qed.

End FitFacts.

(** C9: the callback run at the end of an epoch sets [stopTraining]
    exactly when [cancelTraining] holds or the validation accuracy of
    the epoch exceeds 0.9; so a run in which nobody clicks and
    [cancelTraining] is false ends with the first epoch whose
    validation accuracy exceeds 0.9, before the 1000 epochs are up. *)
Theorem stop_iff_cancel_or_accuracy :
  (forall (epoch : Z) (logs : Logs) (w : World) (model : Model),
     stopTraining model = false ->
     (stopTraining (onEpochEnd epoch logs (w, model)).2 = true
      <-> current (cancelTraining w) = true
          \/ exists q : Q, val_acc logs = Fin q /\ (lit_0_9 < q)%Q))
  /\ (forall (epochLogs : Z -> Logs) (w : World) (k : nat),
        current (cancelTraining w) = false ->
        (k < 1000)%nat ->
        (forall e, 0 <= e < Z.of_nat k ->
           ~ exists q : Q, val_acc (epochLogs e) = Fin q /\ (lit_0_9 < q)%Q) ->
        (exists q : Q, val_acc (epochLogs (Z.of_nat k)) = Fin q /\ (lit_0_9 < q)%Q) ->
        stopTraining (fit epochLogs (fun _ => O) 1000 w).2 = true
        /\ length (history (fit epochLogs (fun _ => O) 1000 w).2) = S k
        /\ train_epoch (page (fit epochLogs (fun _ => O) 1000 w).1) = Z.of_nat k + 1).
Proof.
  split.
  - intros epoch logs w model Hstop.
    rewrite onEpochEnd_stopTraining, Hstop, orb_false_l, orb_true_iff.
    by rewrite float_gt_exceeds.
  - intros epochLogs w k Hflag Hk Hlow Hhigh. unfold fit.
    destruct (fitLoop_until_accurate epochLogs k (Z.to_nat 1000) 0 w
                (mkModel false [])) as (Hs & Hh & Hep & _).
    + exact Hflag.
    + reflexivity.
    + lia.
    + intros e He. destruct (float_gt _ _) eqn:Hgt; [|done].
      apply float_gt_exceeds in Hgt. destruct (Hlow e); [lia | done].
    + by apply float_gt_exceeds.
    + cbn zeta in *. rewrite Hs, Hh, Hep. cbn [history length]. by repeat split.
Qed.

Lemma stop_iff_cancel_or_accuracy_witness :
  length (history (fit (fun e => mkLogs (Fin 1) (Fin 0) (Fin 1)
                                  (Fin (if e <? 2 then 1 # 2 else 19 # 20)))
                     (fun _ => O) 1000
                     (initialWorld (mkPage "" 0 FNaN FNaN FNaN FNaN)
                        (mkRNG (fun _ => 0%Q) 0))).2) = 3%nat.
Proof.
  apply (proj2 stop_iff_cancel_or_accuracy
           (fun e => mkLogs (Fin 1) (Fin 0) (Fin 1)
                       (Fin (if e <? 2 then 1 # 2 else 19 # 20)))
           (initialWorld (mkPage "" 0 FNaN FNaN FNaN FNaN) (mkRNG (fun _ => 0%Q) 0))
           2%nat).
  - reflexivity.
  - lia.
  - intros e He (q & Hq & Hlt). cbn [val_acc] in Hq.
    destruct (Z.ltb_spec e 2); [|lia].
    injection Hq as <-. vm_compute in Hlt. discriminate Hlt.
  - eexists. split; [reflexivity|]. reflexivity.
Defined.

(** ** Cancelling *)

Lemma cancel_const w :
  declared (cancelTraining w) = Const -> cancel w = Err TypeError.
Proof. intros Hc. unfold cancel, assign. by rewrite Hc. Qed.

Lemma dispatch_cancel_const w :
  declared (cancelTraining w) = Const ->
  dispatch cancel w
  = mkWorld (page w) (cancelTraining w) (random w) (uncaught w ++ [TypeError]).
Proof. intros Hc. unfold dispatch. by rewrite cancel_const. Qed.

Lemma clicks_const (k : nat) w :
  declared (cancelTraining w) = Const ->
  cancelTraining (Nat.iter k (dispatch cancel) w) = cancelTraining w
  /\ page (Nat.iter k (dispatch cancel) w) = page w.
Proof.
  intros Hc. induction k as [|k [IHc IHp]]; [done|].
  rewrite Nat.iter_succ, dispatch_cancel_const by (by rewrite IHc).
  done.
Qed.

Lemma dispatch_cancel_let w :
  declared (cancelTraining w) = Let ->
  dispatch cancel w
  = mkWorld (page w) (mkBinding Let true) (random w) (uncaught w).
Proof. intros Hl. unfold dispatch, cancel, assign. by rewrite Hl. Qed.

Lemma clicks_let (k : nat) w :
  declared (cancelTraining w) = Let ->
  (0 < k)%nat ->
  cancelTraining (Nat.iter k (dispatch cancel) w) = mkBinding Let true
  /\ uncaught (Nat.iter k (dispatch cancel) w) = uncaught w.
Proof.
  intros Hl Hk. destruct k as [|k]; [lia|]. clear Hk.
  induction k as [|k [IHc IHu]].
  - rewrite Nat.iter_succ. cbn [Nat.iter nat_rect].
    by rewrite dispatch_cancel_let.
  - rewrite Nat.iter_succ, dispatch_cancel_let by (by rewrite IHc).
    done.
Qed.

Section CancelFacts.

Variables (epochLogs : Z -> Logs) (cancelClicks : Z -> nat).

(** While [cancelTraining] is the constant [false] and no epoch reaches
    the accuracy bound, every epoch runs, click or no click. *)
Lemma fitLoop_const_runs_on (remaining : nat) (epoch : Z) w model :
  cancelTraining w = cancelTraining_decl ->
  stopTraining model = false ->
  (forall e, float_gt (val_acc (epochLogs e)) lit_0_9 = false) ->
  let st := fitLoop epochLogs cancelClicks remaining epoch (w, model) in
  stopTraining st.2 = false
  /\ length (history st.2) = (length (history model) + remaining)%nat
  /\ cancelTraining st.1 = cancelTraining_decl.
Proof.
  intros Hflag Hstop Hlow. revert epoch w model Hflag Hstop.
  induction remaining as [|remaining IH]; intros epoch w model Hflag Hstop;
    cbn zeta; cbn [fitLoop].
  - cbn [fst snd]. repeat split; [done | lia | done].
  - unfold runEpoch.
    destruct (clicks_const (cancelClicks epoch) w) as [Hc _];
      [by rewrite Hflag|].
    set (w1 := Nat.iter _ _ w) in *.
    set (m1 := mkModel _ _).
    pose proof (onEpochEnd_stopTraining epoch (epochLogs epoch) w1 m1) as Hs.
    pose proof (onEpochEnd_world epoch (epochLogs epoch) w1 m1)
      as (Hc' & _ & _ & _ & _ & Hh).
    destruct (onEpochEnd epoch (epochLogs epoch) (w1, m1)) as [w' model'].
    subst m1. cbn [fst snd stopTraining history] in *.
    rewrite Hc, Hflag, Hstop, Hlow in Hs. cbn in Hs. rewrite Hs.
    destruct (IH (epoch + 1) w' model') as (Hs' & Hh' & Hc'');
      [congruence | done |].
    cbn zeta in *. rewrite Hs', Hh', Hc'', Hh, length_app. cbn [length].
    repeat split; lia.
Qed.

End CancelFacts.

(** Had [cancelTraining] been declared with [let], one click during the
    first epoch would end the run with that epoch, and nothing would be
    thrown. *)
Lemma cancel_with_let_halts (epochLogs : Z -> Logs) (cancelClicks : Z -> nat)
    (p : Page) (g : RNG) :
  (0 < cancelClicks 0%Z)%nat ->
  let st := fit epochLogs cancelClicks 1000 (mkWorld p (mkBinding Let false) g []) in
  stopTraining st.2 = true
  /\ length (history st.2) = 1%nat
  /\ uncaught st.1 = [].
Proof.
  intros Hclick. cbn zeta. unfold fit.
  replace (Z.to_nat 1000) with (S (Z.to_nat 999)) by lia.
  rewrite fitLoop_S. cbn zeta. unfold runEpoch.
  destruct (clicks_let (cancelClicks 0) (mkWorld p (mkBinding Let false) g []))
    as [Hc Hu]; [done | done |].
  set (w1 := Nat.iter _ _ _) in *. set (m1 := mkModel _ _).
  pose proof (onEpochEnd_stopTraining 0 (epochLogs 0) w1 m1) as Hs.
  pose proof (onEpochEnd_world 0 (epochLogs 0) w1 m1)
    as (_ & Hu' & _ & _ & _ & Hh).
  destruct (onEpochEnd 0 (epochLogs 0) (w1, m1)) as [w' model'].
  subst m1. cbn [fst snd stopTraining history] in *.
  rewrite Hc in Hs. cbn in Hs. rewrite Hs. cbn [fst snd].
  rewrite Hs, Hh, Hu', Hu. done.
Qed.

(** C3, on the script as it stands: [cancelTraining] is a [const], so
    the click handler [cancel] throws a [TypeError] and the flag stays
    false; with a click during the first epoch and no epoch above the
    accuracy bound, all 1000 epochs run. *)
Theorem cancel_throws_and_training_runs_on
    (epochLogs : Z -> Logs) (cancelClicks : Z -> nat) (p : Page) (g : RNG) :
  (0 < cancelClicks 0%Z)%nat ->
  (forall e, float_gt (val_acc (epochLogs e)) lit_0_9 = false) ->
  cancel (initialWorld p g) = Err TypeError
  /\ dispatch cancel (initialWorld p g)
     = mkWorld p cancelTraining_decl g [TypeError]
  /\ stopTraining (fit epochLogs cancelClicks 1000 (initialWorld p g)).2 = false
  /\ length (history (fit epochLogs cancelClicks 1000 (initialWorld p g)).2)
     = 1000%nat
  /\ current (cancelTraining (fit epochLogs cancelClicks 1000 (initialWorld p g)).1)
     = false.
Proof.
  intros _ Hlow. split; [reflexivity|]. split; [reflexivity|].
  unfold fit.
  destruct (fitLoop_const_runs_on epochLogs cancelClicks (Z.to_nat 1000) 0
              (initialWorld p g) (mkModel false []) eq_refl eq_refl Hlow)
    as (Hs & Hh & Hc).
  cbn zeta in *. rewrite Hs, Hh, Hc. done.
Qed.

Lemma cancel_throws_and_training_runs_on_witness :
  length (history (fit (fun _ => mkLogs (Fin 1) (Fin 0) (Fin 1) (Fin (1 # 2)))
                     (fun e => if e =? 0 then 1%nat else O) 1000
                     (initialWorld (mkPage "" 0 FNaN FNaN FNaN FNaN)
                        (mkRNG (fun _ => 0%Q) 0))).2) = 1000%nat.
Proof.
  apply (cancel_throws_and_training_runs_on
           (fun _ => mkLogs (Fin 1) (Fin 0) (Fin 1) (Fin (1 # 2)))
           (fun e => if e =? 0 then 1%nat else O)
           (mkPage "" 0 FNaN FNaN FNaN FNaN) (mkRNG (fun _ => 0%Q) 0)).
  - cbn. lia.
  - intros e. reflexivity.
Defined.

(** ** The results box *)







(** * Further properties of the script *)

(** ** The generator: draws, edge lengths, the scan *)

Lemma generateSequenceAndLabel_rounds (len : num) (g : RNG) :
  generateSequenceAndLabel len g
  = ((sequence (genAfter (trip_count len) g), label (genAfter (trip_count len) g)),
     entropy (genAfter (trip_count len) g)).
Proof. reflexivity. Qed.

(** X1: whatever the length argument, the generator takes one draw per
    digit it returns and no other: a call with an integer length [N]
    leaves the source [max 0 N] draws further on, with [max 0 N] digits
    returned, and with the draws themselves as they were. *)
Theorem generateSequenceAndLabel_draws (N : Z) (g : RNG) :
  Z.of_nat (length (generateSequenceAndLabel (Int N) g).1.1) = Z.max 0 N
  /\ draws (generateSequenceAndLabel (Int N) g).2 = draws g
  /\ Z.of_nat (drawn (generateSequenceAndLabel (Int N) g).2)
     = Z.of_nat (drawn g) + Z.max 0 N.
Proof.
  rewrite generateSequenceAndLabel_rounds. cbn [fst snd trip_count].
  destruct (genAfter_inv (Z.to_nat N) g) as (-> & -> & _).
  rewrite length_map, length_seq. cbn [draws drawn]. repeat split; lia.
Qed.

Lemma lead_split_max c r :
  exists rest, r = replicate (lead c r) c ++ rest /\ head rest <> Some c.
Proof.
  induction r as [|x r (rest & IH & Hhead)]; [by exists []|].
  cbn [lead]. destruct (Z.eqb_spec x c) as [->|Hne].
  - exists rest. split; [|done]. cbn. by rewrite <- IH.
  - exists (x :: r). split; [done|]. cbn. congruence.
Qed.

(** X2: after every round of the scan, [currentItem] is the digit just
    drawn and [stretchLength] is the length of the stretch that digit
    ends: the sequence so far ends in exactly [stretchLength] copies of
    [currentItem], with a different digit (or nothing) before them, and
    [stretchLength] lies between 1 and the number of rounds. *)
Theorem scan_tracks_last_stretch (k : nat) (g : RNG) :
  (0 < k)%nat ->
  exists pre : list Z,
    sequence (genAfter k g)
    = pre ++ replicate (Z.to_nat (stretchLength (genAfter k g)))
               (currentItem (genAfter k g))
    /\ last pre <> Some (currentItem (genAfter k g))
    /\ last (sequence (genAfter k g)) = Some (currentItem (genAfter k g))
    /\ 1 <= stretchLength (genAfter k g) <= Z.of_nat k.
Proof.
  intros Hk.
  destruct (genAfter_inv k g) as (Hseq & _ & Hcur & Hlen & _).
  cbn zeta in *.
  assert (Hsize : length (sequence (genAfter k g)) = k).
  { by rewrite Hseq, length_map, length_seq. }
  assert (Hrev : sequence (genAfter k g) = reverse (reverse (sequence (genAfter k g)))).
  { by rewrite reverse_involutive. }
  destruct (reverse (sequence (genAfter k g))) as [|x r].
  { rewrite Hrev in Hsize. cbn in Hsize. lia. }
  cbn [hd headRun] in Hcur, Hlen. rewrite Hcur, Hlen, Hrev.
  rewrite Hrev, length_reverse in Hsize. cbn [length] in Hsize.
  destruct (lead_split_max x r) as (rest & Hr & Hhead).
  assert (Hle : (lead x r <= length r)%nat).
  { rewrite Hr at 2. rewrite length_app, length_replicate. lia. }
  assert (Hshape : reverse (x :: r) = reverse rest ++ replicate (S (lead x r)) x).
  { rewrite Hr at 1. rewrite reverse_cons, reverse_app, reverse_replicate.
    by rewrite <- app_assoc, <- replicate_S_end. }
  exists (reverse rest). rewrite Nat2Z.id. repeat split.
  - exact Hshape.
  - by rewrite last_reverse.
  - by rewrite last_reverse.
  - lia.
  - lia.
Qed.

Lemma scan_tracks_last_stretch_witness :
  exists pre : list Z,
    sequence (genAfter 5 (drawsOf [0; 1; 1; 1; 0]))
    = pre ++ replicate (Z.to_nat (stretchLength (genAfter 5 (drawsOf [0; 1; 1; 1; 0]))))
               (currentItem (genAfter 5 (drawsOf [0; 1; 1; 1; 0])))
    /\ last pre <> Some (currentItem (genAfter 5 (drawsOf [0; 1; 1; 1; 0])))
    /\ last (sequence (genAfter 5 (drawsOf [0; 1; 1; 1; 0])))
       = Some (currentItem (genAfter 5 (drawsOf [0; 1; 1; 1; 0])))
    /\ 1 <= stretchLength (genAfter 5 (drawsOf [0; 1; 1; 1; 0])) <= Z.of_nat 5.
Proof. apply scan_tracks_last_stretch. lia. Defined.

Lemma has_run_length T s : has_run T s -> T <= Z.of_nat (length s).
Proof.
  intros (d & k & pre & post & Hk & ->).
  rewrite !length_app, length_replicate. lia.
Qed.

(** X3: a sequence shorter than the threshold is never labelled 1; put
    the other way, a label of 1 needs at least four digits. *)
Theorem short_sequence_label_zero (N : Z) (g : RNG) :
  N < stretchLengthThreshold ->
  (generateSequenceAndLabel (Int N) g).1.2 = 0.
Proof.
  intros HN. rewrite generateSequenceAndLabel_rounds. cbn [fst snd trip_count].
  destruct (genAfter_inv (Z.to_nat N) g) as (Hseq & _ & _ & _ & [H0|H1] & _);
    [exact H0|].
  apply genAfter_label_run, has_run_length in H1.
  cbn zeta in Hseq. rewrite Hseq, length_map, length_seq in H1.
  pose proof threshold_pos. lia.
Qed.

Lemma short_sequence_label_zero_witness :
  (generateSequenceAndLabel (Int 3) (drawsOf [1; 1; 1])).1.2 = 0.
Proof. apply short_sequence_label_zero. reflexivity. Defined.

Lemma genAfter_sequence k g :
  sequence (genAfter k g) = drawnItem g <$> seq 0 k.
Proof. by destruct (genAfter_inv k g) as (-> & _). Qed.

Lemma genAfter_label_binary k g : binary (label (genAfter k g)).
Proof. by destruct (genAfter_inv k g) as (_ & _ & _ & _ & Hbin & _). Qed.

(** The label is a function of which runs the sequence has. *)
Lemma genAfter_label_determined k g k' g' :
  (has_run stretchLengthThreshold (sequence (genAfter k g))
   <-> has_run stretchLengthThreshold (sequence (genAfter k' g'))) ->
  label (genAfter k g) = label (genAfter k' g').
Proof.
  intros Hruns.
  pose proof (genAfter_label_run k g) as Hl.
  pose proof (genAfter_label_run k' g') as Hl'.
  destruct (genAfter_label_binary k g) as [H0|H1],
           (genAfter_label_binary k' g') as [H0'|H1']; try congruence.
  - apply Hl', Hruns, Hl in H1'. congruence.
  - apply Hl, Hruns, Hl' in H1. congruence.
Qed.

(** X4: with one source, the digits generated for a shorter length are
    the first digits generated for a longer one. *)
Theorem generated_sequences_are_prefixes (N N' : nat) (g : RNG) :
  (N <= N')%nat ->
  take N (generateSequenceAndLabel (Int (Z.of_nat N')) g).1.1
  = (generateSequenceAndLabel (Int (Z.of_nat N)) g).1.1.
Proof.
  intros Hle. rewrite !generateSequenceAndLabel_genAfter. cbn [fst].
  rewrite !genAfter_sequence, <- fmap_take, take_seq.
  by replace (N `min` N')%nat with N by lia.
Qed.

Lemma generated_sequences_are_prefixes_witness :
  take 2 (generateSequenceAndLabel (Int (Z.of_nat 4)) (drawsOf [1; 0; 1; 1])).1.1
  = (generateSequenceAndLabel (Int (Z.of_nat 2)) (drawsOf [1; 0; 1; 1])).1.1.
Proof. apply generated_sequences_are_prefixes. lia. Defined.

Lemma has_run_fmap (f : Z -> Z) T (s : list Z) :
  has_run T s -> has_run T (f <$> s).
Proof.
  intros (d & k & pre & post & Hk & ->).
  exists (f d), k, (f <$> pre), (f <$> post). split; [done|].
  by rewrite !fmap_app, fmap_replicate.
Qed.

Lemma flipDigit_twice (s : list Z) : flipDigit <$> (flipDigit <$> s) = s.
Proof.
  rewrite <- list_fmap_compose. rewrite <- (list_fmap_id s) at 2.
  apply list_fmap_ext. intros _ d _. unfold flipDigit. cbn. lia.
Qed.

(** X5: the label does not tell the digits apart.  If a second source
    yields the other digit at each of the [N] positions, the generator
    returns the flipped sequence and the same label. *)
Theorem label_same_for_flipped_digits (N : nat) (g g' : RNG) :
  (forall n : nat, (n < N)%nat -> drawnItem g' n = flipDigit (drawnItem g n)) ->
  (generateSequenceAndLabel (Int (Z.of_nat N)) g').1.1
  = flipDigit <$> (generateSequenceAndLabel (Int (Z.of_nat N)) g).1.1
  /\ (generateSequenceAndLabel (Int (Z.of_nat N)) g').1.2
     = (generateSequenceAndLabel (Int (Z.of_nat N)) g).1.2.
Proof.
  intros Hflip. rewrite !generateSequenceAndLabel_genAfter. cbn [fst snd].
  assert (Hseq : sequence (genAfter N g') = flipDigit <$> sequence (genAfter N g)).
  { rewrite !genAfter_sequence, <- list_fmap_compose.
    apply list_fmap_ext. intros i n Hn. apply lookup_seq in Hn as [-> Hn].
    by apply Hflip. }
  split; [exact Hseq|].
  apply genAfter_label_determined. rewrite Hseq. split.
  - intros Hrun. apply (has_run_fmap flipDigit) in Hrun.
    by rewrite flipDigit_twice in Hrun.
  - apply has_run_fmap.
Qed.

Lemma label_same_for_flipped_digits_witness :
  (generateSequenceAndLabel (Int (Z.of_nat 5)) (drawsOf [1; 0; 0; 0; 0])).1.2
  = (generateSequenceAndLabel (Int (Z.of_nat 5)) (drawsOf [0; 1; 1; 1; 1])).1.2.
Proof.
  apply (label_same_for_flipped_digits 5 (drawsOf [0; 1; 1; 1; 1])
           (drawsOf [1; 0; 0; 0; 0])).
  intros n Hn.
  destruct n as [|[|[|[|[|n]]]]]; [reflexivity .. | lia].
Defined.

(** X6: the label does not depend on the direction of reading.  If a
    second source yields the [N] digits in the opposite order, the
    generator returns the reversed sequence and the same label. *)
Theorem label_same_for_reversed_digits (N : nat) (g g' : RNG) :
  (forall n : nat, (n < N)%nat -> drawnItem g' n = drawnItem g (N - 1 - n)) ->
  (generateSequenceAndLabel (Int (Z.of_nat N)) g').1.1
  = reverse (generateSequenceAndLabel (Int (Z.of_nat N)) g).1.1
  /\ (generateSequenceAndLabel (Int (Z.of_nat N)) g').1.2
     = (generateSequenceAndLabel (Int (Z.of_nat N)) g).1.2.
Proof.
  intros Hrev. rewrite !generateSequenceAndLabel_genAfter. cbn [fst snd].
  assert (Hseq : sequence (genAfter N g') = reverse (sequence (genAfter N g))).
  { rewrite !genAfter_sequence. apply list_eq. intros i.
    destruct (decide (i < N)%nat) as [Hi|Hi].
    - rewrite reverse_lookup by (rewrite length_fmap, length_seq; lia).
      rewrite length_fmap, length_seq, !list_lookup_fmap.
      rewrite !lookup_seq_lt by lia. cbn. f_equal.
      rewrite Hrev by done. f_equal. lia.
    - rewrite !lookup_ge_None_2; [done | |].
      + rewrite length_reverse, length_fmap, length_seq. lia.
      + rewrite length_fmap, length_seq. lia. }
  split; [exact Hseq|].
  apply genAfter_label_determined. rewrite Hseq. apply has_run_reverse.
Qed.

Lemma label_same_for_reversed_digits_witness :
  (generateSequenceAndLabel (Int (Z.of_nat 5)) (drawsOf [1; 1; 1; 1; 0])).1.2
  = (generateSequenceAndLabel (Int (Z.of_nat 5)) (drawsOf [0; 1; 1; 1; 1])).1.2.
Proof.
  apply (label_same_for_reversed_digits 5 (drawsOf [0; 1; 1; 1; 1])
           (drawsOf [1; 1; 1; 1; 0])).
  intros n Hn.
  destruct n as [|[|[|[|[|n]]]]]; [reflexivity .. | lia].
Defined.

(** ** The dataset: layout, labels, dependence on the draws *)

Lemma exampleAt_lookup (n : nat) (g : RNG) (i j : nat) :
  (j < n)%nat ->
  (exampleAt g (Int (Z.of_nat n)) i).1 !! j = Some (drawnItem g (i * n + j)).
Proof.
  intros Hj. rewrite exampleAt_genAfter. cbn [fst].
  rewrite genAfter_sequence, list_lookup_fmap, lookup_seq_lt by done.
  cbn. f_equal. unfold drawnItem. cbn [draws drawn].
  match goal with
  | |- (if Qgtb (draws g ?a) _ then _ else _) = _ =>
      replace a with (drawn g + (i * n + j))%nat by lia
  end.
  reflexivity.
Qed.

Lemma length_flat_map_onehot (D : list Z) :
  length (flat_map onehot D) = (2 * length D)%nat.
Proof. induction D as [|d D IH]; cbn in *; lia. Qed.

Lemma flat_map_onehot_lookup (D : list Z) (q : nat) d :
  D !! q = Some d ->
  flat_map onehot D !! (2 * q)%nat = Some (if d =? 0 then 1 else 0)
  /\ flat_map onehot D !! (2 * q + 1)%nat = Some (if d =? 1 then 1 else 0).
Proof.
  revert q. induction D as [|x D IH]; intros q Hq; [done|].
  destruct q as [|q].
  - injection Hq as ->. by split.
  - cbn in Hq. destruct (IH q Hq) as [H0 H1].
    replace (2 * S q)%nat with (S (S (2 * q))) by lia.
    replace (S (S (2 * q)) + 1)%nat with (S (S (2 * q + 1))) by lia.
    by split.
Qed.

(** X7: the tensors [generateDataset] returns, cell by cell.  The
    inputs hold, digit after digit in the order of the draws, the two
    channels of each digit; the labels hold the label of each example
    in turn; and the source is [M * N] draws further on.  Example [i]
    therefore occupies cells [2 * N * i] to [2 * N * (i + 1) - 1] and
    is made of draws [N * i] to [N * (i + 1) - 1]. *)
Theorem generateDataset_layout (M N : nat) (g : RNG) :
  generateDataset (Int (Z.of_nat M)) (Int (Z.of_nat N)) g
  = Ok ((TF.mkTensor [Int (Z.of_nat M); Int (Z.of_nat N); Int 2]
           (flat_map onehot (drawnItem g <$> seq 0 (M * N))),
         TF.mkTensor [Int (Z.of_nat M); Int 1]
           ((fun i => (exampleAt g (Int (Z.of_nat N)) i).2) <$> seq 0 M)),
        mkRNG (draws g) (drawn g + M * N)).
Proof.
  destruct (generateDataset_cells M N g)
    as (xcells & ycells & Heq & Hxlen & Hylen & Hx & Hy). cbn zeta in *.
  rewrite Heq. do 3 f_equal.
  - f_equal. apply list_eq. intros p.
    destruct (decide (p < M * N * 2)%nat) as [Hp|Hp].
    + assert (HN : (0 < N)%nat) by nia.
      pose proof (Nat.div_mod_eq p 2) as Hp2.
      pose proof (Nat.mod_upper_bound p 2 ltac:(lia)) as Hc.
      set (q := (p / 2)%nat) in *. set (c := (p mod 2)%nat) in *.
      pose proof (Nat.div_mod_eq q N) as HqN.
      pose proof (Nat.mod_upper_bound q N ltac:(lia)) as Hj.
      set (i := (q / N)%nat) in *. set (j := (q mod N)%nat) in *.
      assert (Hq : (q < M * N)%nat) by lia.
      assert (Hi : (i < M)%nat) by nia.
      assert (Hd : (exampleAt g (Int (Z.of_nat N)) i).1 !! j
                   = Some (drawnItem g q)).
      { rewrite exampleAt_lookup by done. do 2 f_equal. lia. }
      assert (HD : (drawnItem g <$> seq 0 (M * N)) !! q = Some (drawnItem g q)).
      { by rewrite list_lookup_fmap, lookup_seq_lt. }
      destruct (flat_map_onehot_lookup _ _ _ HD) as [H0 H1].
      specialize (Hx i j (drawnItem g q) (Z.of_nat c) Hi Hd ltac:(lia)).
      rewrite get_rank3 in Hx. unfold TF.load in Hx.
      destruct (Z.ltb_spec (2 * Z.of_nat N * Z.of_nat i
                            + (2 * Z.of_nat j + Z.of_nat c)) 0); [lia|].
      replace (Z.to_nat (2 * Z.of_nat N * Z.of_nat i
                         + (2 * Z.of_nat j + Z.of_nat c))) with p in Hx by lia.
      rewrite Hx, Hp2. fold q c.
      assert (c = 0 \/ c = 1)%nat as [-> | ->] by lia.
      * rewrite Nat.add_0_r, H0. cbn. by rewrite Z.eqb_sym.
      * rewrite H1. cbn. by rewrite Z.eqb_sym.
    + rewrite !lookup_ge_None_2; [done | |].
      * rewrite length_flat_map_onehot, length_fmap, length_seq. lia.
      * lia.
  - f_equal. apply list_eq. intros p.
    destruct (decide (p < M)%nat) as [Hp|Hp].
    + specialize (Hy p Hp). rewrite get_rank2 in Hy. unfold TF.load in Hy.
      destruct (Z.ltb_spec (Z.of_nat p) 0); [lia|].
      rewrite Nat2Z.id in Hy.
      by rewrite Hy, list_lookup_fmap, lookup_seq_lt.
    + rewrite !lookup_ge_None_2; [done | |].
      * rewrite length_fmap, length_seq. lia.
      * lia.
Qed.

(** X8: in a dataset the labels fit the inputs.  Row [i] of the inputs
    decodes to a sequence of [N] digits, and the label stored for
    example [i] is 1 exactly when that sequence has a run of at least
    [stretchLengthThreshold] equal digits, and 0 exactly when it has
    none. *)
Theorem dataset_labels_match_inputs (M N : nat) (g : RNG)
    (xs ys : TF.Tensor) (g' : RNG) (i : nat) :
  generateDataset (Int (Z.of_nat M)) (Int (Z.of_nat N)) g = Ok ((xs, ys), g') ->
  (i < M)%nat ->
  exists s : list Z,
    length s = N
    /\ decodeSequence xs (Z.of_nat i) N = map Some s
    /\ (TF.get ys [Int (Z.of_nat i); Int 0] = Some 1
        <-> has_run stretchLengthThreshold s)
    /\ (TF.get ys [Int (Z.of_nat i); Int 0] = Some 0
        <-> ~ has_run stretchLengthThreshold s).
Proof.
  intros Heq Hi.
  destruct (generateDataset_cells M N g)
    as (xcells & ycells & Heq0 & _ & _ & Hx & Hy). cbn zeta in *.
  rewrite Heq in Heq0. injection Heq0 as -> -> _.
  set (s := (exampleAt g (Int (Z.of_nat N)) i).1).
  assert (Hlen : length s = N) by apply exampleAt_length.
  assert (Hlab : (exampleAt g (Int (Z.of_nat N)) i).2 = 1
                 <-> has_run stretchLengthThreshold s).
  { subst s. rewrite exampleAt_genAfter. cbn [fst snd].
    apply genAfter_label_run. }
  pose proof (exampleAt_label_binary N g i) as Hbin.
  exists s. split; [exact Hlen|]. split.
  - pose proof (decodeSequence_one_hot
                  (TF.mkTensor [Int (Z.of_nat M); Int (Z.of_nat N); Int 2] xcells)
                  (Z.of_nat i) s (exampleAt_binary N g i)) as Hdec.
    rewrite Hlen in Hdec. apply Hdec.
    intros j d Hd. by apply (generateDataset_one_hot M N g xcells).
  - rewrite (Hy i Hi). split; (split; [intros Hl | intros Hr]).
    + apply Hlab. congruence.
    + f_equal. by apply Hlab.
    + intros Hr. apply Hlab in Hr. congruence.
    + f_equal. destruct Hbin as [H0|H1]; [done|]. by apply Hlab in H1.
Qed.

Lemma dataset_labels_match_inputs_witness :
  exists s : list Z,
    length s = 5%nat
    /\ decodeSequence
         (TF.mkTensor [Int (Z.of_nat 1); Int (Z.of_nat 5); Int 2]
            (flat_map onehot (drawnItem (drawsOf [0; 1; 1; 1; 1]) <$> seq 0 (1 * 5))))
         (Z.of_nat 0) 5 = map Some s
    /\ (TF.get (TF.mkTensor [Int (Z.of_nat 1); Int 1]
                  ((fun i => (exampleAt (drawsOf [0; 1; 1; 1; 1])
                                (Int (Z.of_nat 5)) i).2) <$> seq 0 1))
          [Int (Z.of_nat 0); Int 0] = Some 1
        <-> has_run stretchLengthThreshold s)
    /\ (TF.get (TF.mkTensor [Int (Z.of_nat 1); Int 1]
                  ((fun i => (exampleAt (drawsOf [0; 1; 1; 1; 1])
                                (Int (Z.of_nat 5)) i).2) <$> seq 0 1))
          [Int (Z.of_nat 0); Int 0] = Some 0
        <-> ~ has_run stretchLengthThreshold s).
Proof.
  apply (dataset_labels_match_inputs 1 5 (drawsOf [0; 1; 1; 1; 1]) _ _ _ 0
           (generateDataset_layout 1 5 (drawsOf [0; 1; 1; 1; 1]))).
  lia.
Defined.

Lemma exampleAt_same_digits (M N : nat) (g g' : RNG) (i : nat) :
  (forall k : nat, (k < M * N)%nat -> drawnItem g k = drawnItem g' k) ->
  (i < M)%nat ->
  exampleAt g (Int (Z.of_nat N)) i = exampleAt g' (Int (Z.of_nat N)) i.
Proof.
  intros Hsame Hi.
  assert (Hseq : (exampleAt g (Int (Z.of_nat N)) i).1
                 = (exampleAt g' (Int (Z.of_nat N)) i).1).
  { apply list_eq. intros j. destruct (decide (j < N)%nat) as [Hj|Hj].
    - rewrite !exampleAt_lookup by done. f_equal. apply Hsame. nia.
    - rewrite !lookup_ge_None_2; [done | |]; rewrite exampleAt_length; lia. }
  rewrite (surjective_pairing (exampleAt g _ i)),
          (surjective_pairing (exampleAt g' _ i)).
  f_equal; [exact Hseq|].
  rewrite !exampleAt_genAfter in *. cbn [fst snd] in *.
  apply genAfter_label_determined. by rewrite Hseq.
Qed.

(** X9: a dataset depends on the draws only through the digits they
    make.  Two sources whose first [M * N] draws fall on the same side
    of 0.5, draw by draw, give the same inputs and the same labels. *)
Theorem dataset_depends_on_digits_only (M N : nat) (g g' : RNG) :
  (forall k : nat, (k < M * N)%nat -> drawnItem g k = drawnItem g' k) ->
  exists (xs ys : TF.Tensor) (go go' : RNG),
    generateDataset (Int (Z.of_nat M)) (Int (Z.of_nat N)) g = Ok ((xs, ys), go)
    /\ generateDataset (Int (Z.of_nat M)) (Int (Z.of_nat N)) g' = Ok ((xs, ys), go').
Proof.
  intros Hsame. rewrite !generateDataset_layout.
  eexists _, _, _, _. split; [reflexivity|]. do 3 f_equal.
  - f_equal. f_equal. apply list_fmap_ext. intros p k Hk.
    apply lookup_seq in Hk as [-> Hk]. symmetry. by apply Hsame.
  - f_equal. apply list_fmap_ext. intros p i Hi.
    apply lookup_seq in Hi as [-> Hi]. f_equal. symmetry.
    by apply (exampleAt_same_digits M N).
Qed.

Lemma dataset_depends_on_digits_only_witness :
  exists (xs ys : TF.Tensor) (go go' : RNG),
    generateDataset (Int (Z.of_nat 1)) (Int (Z.of_nat 2))
      (mkRNG (fun _ => 3 # 4) 0) = Ok ((xs, ys), go)
    /\ generateDataset (Int (Z.of_nat 1)) (Int (Z.of_nat 2))
         (mkRNG (fun _ => 9 # 10) 0) = Ok ((xs, ys), go').
Proof.
  apply (dataset_depends_on_digits_only 1 2 (mkRNG (fun _ => 3 # 4) 0)
           (mkRNG (fun _ => 9 # 10) 0)).
  intros k _. reflexivity.
Defined.

(** ** The training run: what a finished run leaves behind *)

Lemma dispatch_cancel_keeps w :
  page (dispatch cancel w) = page w /\ random (dispatch cancel w) = random w.
Proof.
  unfold dispatch, cancel, assign. by destruct (declared (cancelTraining w)).
Qed.

Lemma clicks_keep (k : nat) w :
  page (Nat.iter k (dispatch cancel) w) = page w
  /\ random (Nat.iter k (dispatch cancel) w) = random w.
Proof.
  induction k as [|k [IHp IHr]]; [done|].
  rewrite Nat.iter_succ.
  destruct (dispatch_cancel_keeps (Nat.iter k (dispatch cancel) w)) as [-> ->].
  done.
Qed.

Lemma onEpochEnd_page epoch logs w model :
  page (onEpochEnd epoch logs (w, model)).1
  = mkPage (results (page w)) (epoch + 1)
      (loss logs) (acc logs) (val_loss logs) (val_acc logs).
Proof.
  unfold onEpochEnd.
  by destruct (current (cancelTraining w) || float_gt (val_acc logs) lit_0_9).
Qed.

Section FitReport.

Variables (epochLogs : Z -> Logs) (cancelClicks : Z -> nat).

(** One epoch, seen from outside. *)
Lemma runEpoch_report (epoch : Z) w model :
  stopTraining model = false ->
  let st := runEpoch epochLogs cancelClicks epoch (w, model) in
  history st.2 = history model ++ [epochLogs epoch]
  /\ page st.1
     = mkPage (results (page w)) (epoch + 1)
         (loss (epochLogs epoch)) (acc (epochLogs epoch))
         (val_loss (epochLogs epoch)) (val_acc (epochLogs epoch))
  /\ random st.1 = random w
  /\ (stopTraining st.2 = true
      <-> current (cancelTraining st.1) = true
          \/ float_gt (val_acc (epochLogs epoch)) lit_0_9 = true).
Proof.
  intros Hstop. cbn zeta. unfold runEpoch.
  destruct (clicks_keep (cancelClicks epoch) w) as [Hp Hr].
  set (w1 := Nat.iter _ _ w) in *. set (m1 := mkModel _ _).
  pose proof (onEpochEnd_stopTraining epoch (epochLogs epoch) w1 m1) as Hs.
  pose proof (onEpochEnd_world epoch (epochLogs epoch) w1 m1)
    as (Hc & _ & Hrnd & _ & _ & Hh).
  pose proof (onEpochEnd_page epoch (epochLogs epoch) w1 m1) as Hpage.
  destruct (onEpochEnd epoch (epochLogs epoch) (w1, m1)) as [w' model'].
  subst m1. cbn [fst snd stopTraining history] in *.
  rewrite Hstop, orb_false_l in Hs. rewrite Hp in Hpage.
  split; [exact Hh|]. split; [exact Hpage|]. split; [congruence|].
  by rewrite Hs, Hc, orb_true_iff.
Qed.

(** The epoch loop, seen from outside: it runs [k] epochs in order,
    at least one and at most [remaining]. *)
Lemma fitLoop_report (remaining : nat) (epoch : Z) w model :
  stopTraining model = false ->
  (0 < remaining)%nat ->
  let st := fitLoop epochLogs cancelClicks remaining epoch (w, model) in
  exists k : nat,
    (1 <= k <= remaining)%nat
    /\ history st.2
       = history model ++ ((fun i => epochLogs (epoch + Z.of_nat i)) <$> seq 0 k)
    /\ page st.1
       = mkPage (results (page w)) (epoch + Z.of_nat k)
           (loss (epochLogs (epoch + Z.of_nat k - 1)))
           (acc (epochLogs (epoch + Z.of_nat k - 1)))
           (val_loss (epochLogs (epoch + Z.of_nat k - 1)))
           (val_acc (epochLogs (epoch + Z.of_nat k - 1)))
    /\ random st.1 = random w
    /\ (stopTraining st.2 = true \/ k = remaining)
    /\ (stopTraining st.2 = true
        <-> current (cancelTraining st.1) = true
            \/ float_gt (val_acc (epochLogs (epoch + Z.of_nat k - 1))) lit_0_9 = true)
    /\ (forall i : nat, (i < k - 1)%nat ->
          float_gt (val_acc (epochLogs (epoch + Z.of_nat i))) lit_0_9 = false).
Proof.
  revert epoch w model.
  induction remaining as [|remaining IH]; intros epoch w model Hstop Hrem; [lia|].
  cbn zeta. rewrite fitLoop_S. cbn zeta.
  destruct (runEpoch_report epoch w model Hstop) as (Hh & Hp & Hr & Hs).
  cbn zeta in *.
  destruct (runEpoch epochLogs cancelClicks epoch (w, model)) as [w1 m1].
  cbn [fst snd] in *.
  destruct (stopTraining m1) eqn:Hstop1.
  - exists 1%nat. cbn [fst snd].
    replace (epoch + Z.of_nat 1 - 1) with epoch by lia.
    split; [lia|]. split; [rewrite Hh; cbn; by rewrite Z.add_0_r|].
    split; [exact Hp|]. split; [exact Hr|]. split; [by left|].
    split; [split; [intros _; by apply Hs | done]|]. intros i Hi. lia.
  - destruct remaining as [|remaining].
    + exists 1%nat. cbn [fitLoop fst snd].
      replace (epoch + Z.of_nat 1 - 1) with epoch by lia.
      split; [lia|]. split; [rewrite Hh; cbn; by rewrite Z.add_0_r|].
      split; [exact Hp|]. split; [exact Hr|]. split; [by right|].
      split; [by rewrite Hstop1|]. intros i Hi. lia.
    + destruct (IH (epoch + 1) w1 m1 Hstop1 ltac:(lia))
        as (k & Hk & Hh' & Hp' & Hr' & Hend & Hs' & Hlow).
      cbn zeta in *.
      assert (Hnot : float_gt (val_acc (epochLogs epoch)) lit_0_9 = false).
      { destruct (float_gt _ _) eqn:Hgt; [|done].
        assert (false = true); [|done]. apply Hs. by right. }
      exists (S k).
      replace (epoch + Z.of_nat (S k)) with (epoch + 1 + Z.of_nat k) by lia.
      rewrite Hh', Hp', Hr', Hh, Hp, Hr. cbn [results].
      split; [lia|]. split.
      { rewrite <- app_assoc. f_equal. cbn [seq fmap list_fmap app].
        rewrite Z.add_0_r. f_equal. rewrite <- fmap_S_seq, <- list_fmap_compose.
        apply list_fmap_ext. intros p i _. cbn. f_equal. lia. }
      split; [done|]. split; [done|]. split; [destruct Hend; [auto | right; lia]|].
      split; [exact Hs'|].
      intros i Hi. destruct i as [|i]; [by rewrite Z.add_0_r|].
      replace (epoch + Z.of_nat (S i)) with (epoch + 1 + Z.of_nat i) by lia.
      apply Hlow. lia.
Qed.

End FitReport.

(** X10: what [model.fit] leaves behind.  A run of at most [epochs]
    epochs runs [k] of them, at least one, in order from epoch 0; the
    history holds their logs in that order; the page shows epoch
    number [k] and the logs of the last epoch run, and its results box
    is as before.  The run ends early
    only with [stopTraining] set, which happens exactly when
    [cancelTraining] holds or the last epoch's validation accuracy
    exceeds 0.9; no earlier epoch had such an accuracy. *)
Theorem fit_reports_epochs_in_order
    (epochLogs : Z -> Logs) (cancelClicks : Z -> nat) (epochs : Z) (w : World) :
  0 < epochs ->
  exists k : nat,
    1 <= Z.of_nat k <= epochs
    /\ history (fit epochLogs cancelClicks epochs w).2
       = (fun i => epochLogs (Z.of_nat i)) <$> seq 0 k
    /\ page (fit epochLogs cancelClicks epochs w).1
       = mkPage (results (page w)) (Z.of_nat k)
           (loss (epochLogs (Z.of_nat k - 1)))
           (acc (epochLogs (Z.of_nat k - 1)))
           (val_loss (epochLogs (Z.of_nat k - 1)))
           (val_acc (epochLogs (Z.of_nat k - 1)))
    /\ (stopTraining (fit epochLogs cancelClicks epochs w).2 = true
        \/ Z.of_nat k = epochs)
    /\ (stopTraining (fit epochLogs cancelClicks epochs w).2 = true
        <-> current (cancelTraining (fit epochLogs cancelClicks epochs w).1) = true
            \/ float_gt (val_acc (epochLogs (Z.of_nat k - 1))) lit_0_9 = true)
    /\ (forall i : nat, (i < k - 1)%nat ->
          float_gt (val_acc (epochLogs (Z.of_nat i))) lit_0_9 = false).
Proof.
  intros Hepochs. unfold fit.
  destruct (fitLoop_report epochLogs cancelClicks (Z.to_nat epochs) 0 w
              (mkModel false []) eq_refl ltac:(lia))
    as (k & Hk & Hh & Hp & Hr & Hend & Hs & Hlow).
  cbn zeta in *. cbn [Z.add history app] in *.
  exists k. split; [lia|]. split; [exact Hh|]. split; [exact Hp|].
  split; [destruct Hend; [auto | right; lia]|].
  split; [exact Hs | exact Hlow].
Qed.

Lemma fit_reports_epochs_in_order_witness :
  exists k : nat,
    1 <= Z.of_nat k <= 1000
    /\ history (fit (fun e => mkLogs (Fin 1) (Fin 0) (Fin 1)
                                (Fin (if e <? 2 then 1 # 2 else 19 # 20)))
                  (fun _ => O) 1000
                  (initialWorld (mkPage "" 0 FNaN FNaN FNaN FNaN)
                     (mkRNG (fun _ => 0%Q) 0))).2
       = (fun i => mkLogs (Fin 1) (Fin 0) (Fin 1)
                     (Fin (if Z.of_nat i <? 2 then 1 # 2 else 19 # 20)))
         <$> seq 0 k.
Proof.
  destruct (fit_reports_epochs_in_order
              (fun e => mkLogs (Fin 1) (Fin 0) (Fin 1)
                          (Fin (if e <? 2 then 1 # 2 else 19 # 20)))
              (fun _ => O) 1000
              (initialWorld (mkPage "" 0 FNaN FNaN FNaN FNaN)
                 (mkRNG (fun _ => 0%Q) 0)))
    as (k & Hk & Hh & _); [lia|].
  exists k. split; [exact Hk | exact Hh].
Defined.

Lemma onEpochEnd_agree epoch logs (w w0 : World) model :
  page w = page w0 -> cancelTraining w = cancelTraining w0 ->
  random w = random w0 ->
  (onEpochEnd epoch logs (w, model)).2 = (onEpochEnd epoch logs (w0, model)).2
  /\ page (onEpochEnd epoch logs (w, model)).1
     = page (onEpochEnd epoch logs (w0, model)).1
  /\ cancelTraining (onEpochEnd epoch logs (w, model)).1
     = cancelTraining (onEpochEnd epoch logs (w0, model)).1
  /\ random (onEpochEnd epoch logs (w, model)).1
     = random (onEpochEnd epoch logs (w0, model)).1.
Proof.
  intros Hp Hc Hr. unfold onEpochEnd. rewrite Hp, Hc, Hr.
  by destruct (current (cancelTraining w0) || float_gt (val_acc logs) lit_0_9).
Qed.

Section ClicksOnConst.

Variables (epochLogs : Z -> Logs) (cancelClicks : Z -> nat).

Lemma fitLoop_clicks_on_const (remaining : nat) (epoch : Z) (w w0 : World) model :
  declared (cancelTraining w) = Const ->
  page w = page w0 -> cancelTraining w = cancelTraining w0 ->
  random w = random w0 ->
  (fitLoop epochLogs cancelClicks remaining epoch (w, model)).2
  = (fitLoop epochLogs (fun _ => O) remaining epoch (w0, model)).2
  /\ page (fitLoop epochLogs cancelClicks remaining epoch (w, model)).1
     = page (fitLoop epochLogs (fun _ => O) remaining epoch (w0, model)).1
  /\ cancelTraining (fitLoop epochLogs cancelClicks remaining epoch (w, model)).1
     = cancelTraining w
  /\ random (fitLoop epochLogs cancelClicks remaining epoch (w, model)).1
     = random (fitLoop epochLogs (fun _ => O) remaining epoch (w0, model)).1.
Proof.
  revert epoch w w0 model.
  induction remaining as [|remaining IH]; intros epoch w w0 model Hconst Hp Hc Hr;
    [done|].
  rewrite !fitLoop_S. cbn zeta. unfold runEpoch. cbn [Nat.iter nat_rect].
  destruct (clicks_const (cancelClicks epoch) w Hconst) as [Hc1 Hp1].
  destruct (clicks_keep (cancelClicks epoch) w) as [_ Hr1].
  set (w1 := Nat.iter _ _ w) in *. set (m1 := mkModel _ _).
  destruct (onEpochEnd_agree epoch (epochLogs epoch) w1 w0 m1)
    as (Hm & Hp' & Hc' & Hr'); [congruence..|].
  pose proof (onEpochEnd_world epoch (epochLogs epoch) w1 m1) as (Hcw & _).
  destruct (onEpochEnd epoch (epochLogs epoch) (w1, m1)) as [w' model'].
  destruct (onEpochEnd epoch (epochLogs epoch) (w0, m1)) as [w0' model0'].
  cbn [fst snd] in *. subst model0'.
  destruct (stopTraining model').
  - cbn [fst snd]. repeat split; congruence.
  - destruct (IH (epoch + 1) w' w0' model') as (Hm' & Hp'' & Hc'' & Hr'');
      [congruence..|].
    repeat split; congruence.
Qed.

End ClicksOnConst.

(** X11: in the script as it stands, clicks on the cancel button change
    nothing of a run.  Started from the script's initial state, a run
    with any clicks runs the same epochs, ends with the same model flag
    and history and shows the same page as a run without clicks, and
    [cancelTraining] is still the constant [false] afterwards. *)
Theorem clicks_do_not_change_the_run
    (epochLogs : Z -> Logs) (cancelClicks : Z -> nat) (epochs : Z)
    (p : Page) (g : RNG) :
  (fit epochLogs cancelClicks epochs (initialWorld p g)).2
  = (fit epochLogs (fun _ => O) epochs (initialWorld p g)).2
  /\ page (fit epochLogs cancelClicks epochs (initialWorld p g)).1
     = page (fit epochLogs (fun _ => O) epochs (initialWorld p g)).1
  /\ cancelTraining (fit epochLogs cancelClicks epochs (initialWorld p g)).1
     = cancelTraining_decl.
Proof.
  unfold fit.
  destruct (fitLoop_clicks_on_const epochLogs cancelClicks (Z.to_nat epochs) 0
              (initialWorld p g) (initialWorld p g) (mkModel false []))
    as (Hm & Hp & Hc & _); try reflexivity.
  by rewrite Hm, Hp, Hc.
Qed.

(** ** [train] with a negative count *)




(** ** The label is only ever set by a long stretch *)

Lemma genBody_label_origin i st :
  label (genBody i st) = 1 ->
  label st = 1 \/ stretchLengthThreshold <= stretchLength (genBody i st).
Proof.
  unfold genBody, Math_random.
  destruct (currentItem st =? _); cbn [label stretchLength];
    match goal with
    | |- context [?a >=? ?b] => destruct (Z.geb_spec a b)
    end; auto.
Qed.

(** X14: the label is 1 only if the scan saw a stretch of at least the
    threshold: when the label is 1 after [j] rounds, some round up to
    round [j] ended with [stretchLength] at or above
    [stretchLengthThreshold]. *)
Theorem label_set_only_by_long_stretch (j : nat) (g : RNG) :
  label (genAfter j g) = 1 ->
  exists i : nat,
    (1 <= i <= j)%nat
    /\ stretchLengthThreshold <= stretchLength (genAfter i g).
Proof.
  induction j as [|j IH]; intros Hl; [discriminate Hl|].
  rewrite genAfter_S in Hl.
  destruct (genBody_label_origin _ _ Hl) as [Hprev|Hnow].
  - destruct (IH Hprev) as (i & Hi & Hreach). exists i. split; [lia | done].
  - exists (S j). split; [lia|]. by rewrite genAfter_S.
Qed.

Lemma label_set_only_by_long_stretch_witness :
  exists i : nat,
    (1 <= i <= 6)%nat
    /\ stretchLengthThreshold
       <= stretchLength (genAfter i (drawsOf [0; 1; 1; 1; 1; 0])).
Proof.
  apply (label_set_only_by_long_stretch 6 (drawsOf [0; 1; 1; 1; 1; 0])).
  reflexivity.
Defined.
